(** * Netflix content API: facets, statistics, queries and bulk import

    A shallow embedding of [app/services/data_loader.py] and
    [app/routers/netflix.py], with the properties of the catalogue service
    stated and proved over it.

    Conventions of the embedding:
    - a Python [str] is a [string]; the characters are taken in the ASCII
      range, where [str.strip], [str.lower] and the code point order of
      [sorted] are the ones written out below;
    - a nullable column is an [option]; SQL comparisons on it are
      three-valued and a row is kept only when the predicate is true;
    - a table is the list of its rows in insertion order, the order in which
      a query without ORDER BY is taken to return them;
    - the database is PostgreSQL (the URL of [app/core/config.py]), so
      [ilike] is its ILIKE, with the backslash as escape character, OFFSET
      and LIMIT are of type [bigint] and the column [release_year] of type
      INTEGER: a value out of range is refused and the call raises;
    - a Python [set] is a [gset], a [dict] (which keeps insertion order) an
      association list. *)

From Stdlib Require Import ZArith Ascii String DecimalString List Bool Lia.
From stdpp Require Import base tactics option list strings gmap sorting.

Local Open Scope Z_scope.

(** ** Python strings *)

Module Str.

(** [bool(s)] for a string: the empty string is falsy. *)
Definition truthy (s : string) : bool :=
  match s with
  | EmptyString => false
  | String _ _ => true
  end.

(** [c.isspace()] on the ASCII range: TAB, LF, VT, FF, CR, the four
    separators FS, GS, RS, US and the space. *)
Definition isspace (c : ascii) : bool :=
  let n := N_of_ascii c in
  ((9 <=? n) && (n <=? 13) || (28 <=? n) && (n <=? 32))%N.

Fixpoint lstrip (s : string) : string :=
  match s with
  | EmptyString => EmptyString
  | String c s' => if isspace c then lstrip s' else s
  end.

Fixpoint rstrip (s : string) : string :=
  match s with
  | EmptyString => EmptyString
  | String c s' =>
      match rstrip s' with
      | EmptyString => if isspace c then EmptyString else String c EmptyString
      | t => String c t
      end
  end.

(** [s.strip()] *)
Definition strip (s : string) : string := rstrip (lstrip s).

(** [s.split(sep)] for a one-character separator: never the empty list,
    and an empty piece for every two adjacent separators. *)
Fixpoint split (sep : ascii) (s : string) : list string :=
  match s with
  | EmptyString => [EmptyString]
  | String c s' =>
      if Ascii.eqb c sep then EmptyString :: split sep s'
      else match split sep s' with
           | [] => [String c EmptyString]
           | t :: ts => String c t :: ts
           end
  end.

(** [c.lower()] on the ASCII range. *)
Definition lower_char (c : ascii) : ascii :=
  let n := N_of_ascii c in
  if ((65 <=? n) && (n <=? 90))%N then ascii_of_N (n + 32) else c.

Fixpoint lower (s : string) : string :=
  match s with
  | EmptyString => EmptyString
  | String c s' => String (lower_char c) (lower s')
  end.

(** [sorted(xs)] on strings: ascending in the code point order. *)
Definition sorted (xs : list string) : list string :=
  merge_sort String.le xs.

(** The tokens of a comma-joined field, as every facet and statistics
    loop computes them: [[t.strip() for t in s.split(',')]]. *)
Definition tokens (s : string) : list string :=
  strip <$> split "," s.

End Str.

(** ** The record store *)

(** One row of [netflix_content] (models/netflix.py).  The surrogate key
    [id] is assigned by the database and read by none of the functions
    embedded here; it is left out. *)
Record NetflixContent := {
  show_id : string;
  type : option string;
  title : option string;
  director : option string;
  cast : option string;
  country : option string;
  date_added : option string;
  release_year : option Z;
  rating : option string;
  duration : option string;
  listed_in : option string;
  description : option string
}.

Definition table := list NetflixContent.

(** ** SQL predicates on nullable columns *)

Module Sql.

(** [col != ''], kept by [filter] only when true: a NULL is dropped. *)
Definition ne_empty (v : option string) : bool :=
  match v with
  | Some s => Str.truthy s
  | None => false
  end.

(** [col == v] for a string column. *)
Definition eq_str (v : string) (col : option string) : bool :=
  match col with
  | Some s => bool_decide (s = v)
  | None => false
  end.

(** [col == v] for an integer column. *)
Definition eq_int (v : Z) (col : option Z) : bool :=
  match col with
  | Some z => Z.eqb z v
  | None => false
  end.

(** *** LIKE patterns

    The pattern language of PostgreSQL: [%] stands for any run of
    characters, [_] for any one character, and the backslash takes the
    next character literally.  A pattern that ends in a lone backslash is
    refused by the database. *)
Inductive pat := Any | One | Lit (c : ascii).

Definition percent : ascii := ascii_of_N 37.
Definition underscore : ascii := ascii_of_N 95.
Definition backslash : ascii := ascii_of_N 92.

Fixpoint parse (p : string) : option (list pat) :=
  match p with
  | EmptyString => Some []
  | String c rest =>
      if Ascii.eqb c backslash then
        match rest with
        | EmptyString => None
        | String c' rest' => cons (Lit c') <$> parse rest'
        end
      else if Ascii.eqb c percent then cons Any <$> parse rest
      else if Ascii.eqb c underscore then cons One <$> parse rest
      else cons (Lit c) <$> parse rest
  end.

(** [s LIKE p] *)
Fixpoint like (p : list pat) : string → bool :=
  match p with
  | [] => fun s => negb (Str.truthy s)
  | Any :: p' =>
      fix any (s : string) : bool :=
        like p' s
        || match s with
           | EmptyString => false
           | String _ s' => any s'
           end
  | One :: p' =>
      fun s => match s with
               | EmptyString => false
               | String _ s' => like p' s'
               end
  | Lit c :: p' =>
      fun s => match s with
               | EmptyString => false
               | String d s' => Ascii.eqb c d && like p' s'
               end
  end.

(** [col ILIKE pattern]: both sides are folded to lower case and then
    matched; NULL when the column is NULL.  The outer [None] is the
    database refusing the pattern. *)
Definition ilike (pattern : string) (col : option string)
    : option (option bool) :=
  p ← parse (Str.lower pattern);
  Some (match col with
        | Some s => Some (like p (Str.lower s))
        | None => None
        end).

(** [a OR b] in three-valued logic. *)
Definition or3 (a b : option bool) : option bool :=
  match a, b with
  | Some true, _ | _, Some true => Some true
  | Some false, Some false => Some false
  | _, _ => None
  end.

(** [or_(...)] *)
Definition or_ (xs : list (option bool)) : option bool :=
  foldr or3 (Some false) xs.

(** A WHERE clause keeps the rows on which the predicate is true. *)
Definition holds (v : option bool) : bool :=
  match v with
  | Some true => true
  | _ => false
  end.

(** [query.filter(pred)] for a predicate the database may refuse. *)
Fixpoint where_ (pred : NetflixContent → option (option bool))
    (query : table) : option table :=
  match query with
  | [] => Some []
  | r :: rest =>
      v ← pred r;
      rest' ← where_ pred rest;
      Some (if holds v then r :: rest' else rest')
  end.

(** The range of INTEGER, the type of the column [release_year]
    (models/netflix.py): an INSERT of a value outside it is refused. *)
Definition integer_min : Z := -2147483648.
Definition integer_max : Z := 2147483647.

Definition fits_integer (v : option Z) : bool :=
  match v with
  | Some z => (integer_min <=? z) && (z <=? integer_max)
  | None => true
  end.

(** The largest [bigint], the type PostgreSQL gives OFFSET and LIMIT. *)
Definition bigint_max : Z := 9223372036854775807.

(** What OFFSET and LIMIT accept: a [bigint] that is not negative. *)
Definition row_count (n : Z) : bool := (0 <=? n) && (n <=? bigint_max).

(** The rows that OFFSET [offset] LIMIT [limit] keeps. *)
Definition slice (offset limit : Z) (query : table) : table :=
  take (Z.to_nat limit) (drop (Z.to_nat offset) query).

(** [query.offset(offset).limit(limit).all()]; the database refuses a
    count that is negative or out of the range of [bigint], and the call
    raises. *)
Definition page (offset limit : Z) (query : table) : option table :=
  if row_count offset && row_count limit
  then Some (slice offset limit query)
  else None.

End Sql.

(** ** Facets: unique filter values *)

Module Facets.

(** The body shared by the four facet loops:
    [if row[0]: for t in row[0].split(','): acc.add(t.strip())]. *)
Definition add_row (acc : gset string) (row : option string) : gset string :=
  match row with
  | Some s =>
      if Str.truthy s
      then foldl (fun st t => {[ Str.strip t ]} ∪ st) acc (Str.split "," s)
      else acc
  | None => acc
  end.

(** routers/netflix.py, [get_all_categories] *)
Definition get_all_categories (db : table) : list string :=
  let genres_query := List.filter Sql.ne_empty (map listed_in db) in
  let genres_set := foldl add_row ∅ genres_query in
  Str.sorted (elements genres_set).

(** routers/netflix.py, [get_all_countries]; the query is DISTINCT. *)
Definition get_all_countries (db : table) : list string :=
  let countries_query :=
    remove_dups (List.filter Sql.ne_empty (map country db)) in
  let countries_set := foldl add_row ∅ countries_query in
  Str.sorted (elements countries_set).

(** routers/netflix.py, [get_all_ratings] *)
Definition get_all_ratings (db : table) : list string :=
  let ratings := remove_dups (List.filter Sql.ne_empty (map rating db)) in
  Str.sorted
    (omap (fun r => match r with
                    | Some s => if Str.truthy s then Some s else None
                    | None => None
                    end) ratings).

(** services/data_loader.py, [get_unique_values] *)
Record unique_values := {
  ratings : list string;
  countries : list string;
  categories : list string
}.

Definition get_unique_values (db : table) : unique_values :=
  let ratings_list := get_all_ratings db in
  let countries_query :=
    remove_dups (List.filter Sql.ne_empty (map country db)) in
  let countries_set := foldl add_row ∅ countries_query in
  let genres_query := List.filter Sql.ne_empty (map listed_in db) in
  let genres_set := foldl add_row ∅ genres_query in
  {| ratings := ratings_list;
     countries := Str.sorted (elements countries_set);
     categories := Str.sorted (elements genres_set) |}.

End Facets.

(** ** Statistics *)

Module Stats.

(** A Python [dict] from strings to counts, in insertion order. *)
Definition dict := list (string * Z).

(** [d.get(k, 0)] *)
Fixpoint get (k : string) (d : dict) : Z :=
  match d with
  | [] => 0
  | (k', n) :: d' => if decide (k' = k) then n else get k d'
  end.

(** [d[k] = v]: an existing key keeps its place, a new one goes last. *)
Fixpoint set (k : string) (v : Z) (d : dict) : dict :=
  match d with
  | [] => [(k, v)]
  | (k', n) :: d' =>
      if decide (k' = k) then (k', v) :: d' else (k', n) :: set k v d'
  end.

(** [category_counts[category] = category_counts.get(category, 0) + 1] *)
Definition incr (d : dict) (k : string) : dict := set k (get k d + 1) d.

(** The body of the loop over [genres_query]. *)
Definition count_row (d : dict) (row : option string) : dict :=
  match row with
  | Some s => if Str.truthy s then foldl incr d (Str.tokens s) else d
  | None => d
  end.

(** [sorted(items, key=lambda x: x[1], reverse=True)]: descending by
    count and stable, so equal counts stay in their original order. *)
Fixpoint insert_desc (x : string * Z) (l : dict) : dict :=
  match l with
  | [] => [x]
  | y :: l' => if x.2 <? y.2 then y :: insert_desc x l' else x :: l
  end.

Definition sorted_desc (items : dict) : dict := foldr insert_desc [] items.

Record ContentStats := {
  total_content : Z;
  movies : Z;
  tv_shows : Z;
  by_rating : list (string * Z);
  by_category : list (string * Z)
}.

Definition count (db : table) : Z := Z.of_nat (length db).

(** services/data_loader.py, [get_statistics]; the handler of
    [/content/stats/overview] in routers/netflix.py has the same body.
    The grouped rating query is taken to return its groups in order of
    first appearance before ORDER BY count DESC is applied. *)
Definition get_statistics (db : table) : ContentStats :=
  let total_count := count db in
  let movie_count :=
    count (List.filter (fun r => Sql.eq_str "Movie" (type r)) db) in
  let tv_show_count :=
    count (List.filter (fun r => Sql.eq_str "TV Show" (type r)) db) in
  let rating_stats :=
    sorted_desc
      (foldl incr []
         (omap id (List.filter Sql.ne_empty (map rating db)))) in
  let genres_query := List.filter Sql.ne_empty (map listed_in db) in
  let category_counts := foldl count_row [] genres_query in
  let sorted_categories := take 20 (sorted_desc category_counts) in
  {| total_content := total_count;
     movies := movie_count;
     tv_shows := tv_show_count;
     by_rating := rating_stats;
     by_category := sorted_categories |}.

End Stats.

(** ** The query layer *)

Module Router.

Inductive response (A : Type) :=
| Ok (a : A)
| ValidationError
| StoreError.
Arguments Ok {A} a.
Arguments ValidationError {A}.
Arguments StoreError {A}.

(** [Query(default, ge=.., le=..)] on an integer parameter: the default
    when the parameter is absent, a validation error out of range. *)
Definition query_int (default : Z) (ge : Z) (le : option Z)
    (raw : option Z) : option Z :=
  match raw with
  | None => Some default
  | Some v =>
      if (ge <=? v) && (match le with Some m => v <=? m | None => true end)
      then Some v else None
  end.

(** [Query(..., min_length=n)] on a required string parameter. *)
Definition query_str_required (min_length : nat) (raw : option string)
    : option string :=
  match raw with
  | None => None
  | Some v => if (min_length <=? String.length v)%nat then Some v else None
  end.

(** [limit: int = Query(20, ge=1, le=100)] *)
Definition limit_param : option Z → option Z := query_int 20 1 (Some 100).
(** [offset: int = Query(0, ge=0)] *)
Definition offset_param : option Z → option Z := query_int 0 0 None.

(** [if param: query = f(param, query)] for an optional string: skipped
    when the parameter is absent or empty. *)
Definition if_str (param : option string)
    (f : string → table → option table) (query : table) : option table :=
  match param with
  | Some v => if Str.truthy v then f v query else Some query
  | None => Some query
  end.

(** The same for an optional integer: skipped when absent or zero. *)
Definition if_int (param : option Z)
    (f : Z → table → option table) (query : table) : option table :=
  match param with
  | Some v => if v =? 0 then Some query else f v query
  | None => Some query
  end.

(** [f"%{v}%"] *)
Definition contains_pattern (v : string) : string :=
  String Sql.percent (v +:+ String Sql.percent EmptyString).

Definition filter_eq_str (col : NetflixContent → option string)
    (v : string) (query : table) : option table :=
  Some (List.filter (fun r => Sql.eq_str v (col r)) query).

Definition filter_eq_int (col : NetflixContent → option Z)
    (v : Z) (query : table) : option table :=
  Some (List.filter (fun r => Sql.eq_int v (col r)) query).

Definition filter_ilike (col : NetflixContent → option string)
    (v : string) (query : table) : option table :=
  Sql.where_ (fun r => Sql.ilike (contains_pattern v) (col r)) query.

(** The filtered query of [get_content], before pagination. *)
Definition get_content_query
    (type_ rating_ : option string) (release_year_ : option Z)
    (country_ category title_ director_ cast_ : option string)
    (db : table) : option table :=
  let query := db in
  query ← if_str type_ (filter_eq_str type) query;
  query ← if_str rating_ (filter_eq_str rating) query;
  query ← if_int release_year_ (filter_eq_int release_year) query;
  query ← if_str country_ (filter_ilike country) query;
  query ← if_str category (filter_ilike listed_in) query;
  query ← if_str title_ (filter_ilike title) query;
  query ← if_str director_ (filter_ilike director) query;
  query ← if_str cast_ (filter_ilike cast) query;
  Some query.

(** [get_content], the handler of GET /content/ *)
Definition get_content
    (type_ rating_ : option string) (release_year_ : option Z)
    (country_ category title_ director_ cast_ : option string)
    (limit offset : Z) (db : table) : option table :=
  query ← get_content_query type_ rating_ release_year_ country_ category
             title_ director_ cast_ db;
  Sql.page offset limit query.

(** The filtered query of [search_content], before pagination. *)
Definition search_content_query (q : string) (db : table) : option table :=
  let search_pattern := contains_pattern q in
  Sql.where_
    (fun r =>
       a ← Sql.ilike search_pattern (title r);
       b ← Sql.ilike search_pattern (director r);
       c ← Sql.ilike search_pattern (cast r);
       d ← Sql.ilike search_pattern (description r);
       Some (Sql.or_ [a; b; c; d]))
    db.

(** [search_content], the handler of GET /content/search/query *)
Definition search_content (q : string) (limit offset : Z) (db : table)
    : option table :=
  query ← search_content_query q db;
  Sql.page offset limit query.

(** [get_content_by_rating] *)
Definition get_content_by_rating (rating_ : string) (limit offset : Z)
    (db : table) : option table :=
  query ← filter_eq_str rating rating_ db;
  Sql.page offset limit query.

(** [get_content_by_category] *)
Definition get_content_by_category (category : string) (limit offset : Z)
    (db : table) : option table :=
  query ← filter_ilike listed_in category db;
  Sql.page offset limit query.

(** What the framework does around a handler: the declared parameters
    are validated first, and the handler runs on the validated values; an
    error of the database surfaces as a failure. *)
Definition respond (r : option table) : response table :=
  match r with
  | Some rows => Ok rows
  | None => StoreError
  end.

Definition with_page (limit offset : option Z)
    (handler : Z → Z → table → option table) (db : table)
    : response table :=
  match limit_param limit, offset_param offset with
  | Some l, Some o => respond (handler l o db)
  | _, _ => ValidationError
  end.


Definition search_content_endpoint (q : option string)
    (limit offset : option Z) (db : table) : response table :=
  match query_str_required 1 q with
  | Some q' => with_page limit offset (search_content q') db
  | None => ValidationError
  end.



End Router.

(** ** Bulk import *)

Module Loader.

(** *** The data frame *)

(** A cell as [pd.read_csv] returns it: missing, a number or a text.
    A number is given by the integer [astype(int)] makes of it; the
    fraction of a float cell is outside the embedding. *)
Inductive cell := NaN | Int (z : Z) | Text (s : string).

(** A row of the file, column by column. *)
Record csv_row := {
  csv_show_id : cell;
  csv_type : cell;
  csv_title : cell;
  csv_director : cell;
  csv_cast : cell;
  csv_country : cell;
  csv_date_added : cell;
  csv_release_year : cell;
  csv_rating : cell;
  csv_duration : cell;
  csv_listed_in : cell;
  csv_description : cell
}.

(** [str(z)] *)
Definition str_of_int (z : Z) : string := NilZero.string_of_int (Z.to_int z).

(** [df.fillna('')] on a cell *)
Definition fillna_empty (c : cell) : cell :=
  match c with
  | NaN => Text ""
  | _ => c
  end.

(** [.astype(str)] on a cell that is not missing *)
Definition astype_str (c : cell) : string :=
  match c with
  | NaN => "nan"
  | Int z => str_of_int z
  | Text s => s
  end.

(** [bool(x)] for a cell value *)
Definition cell_truthy (c : cell) : bool :=
  match c with
  | NaN => true
  | Int z => negb (z =? 0)
  | Text s => Str.truthy s
  end.

(** [row[col] if row[col] else None] for a text column; a number is
    stored as its decimal text. *)
Definition value_or_none (c : cell) : option string :=
  if cell_truthy c then Some (astype_str c) else None.

Inductive exn :=
| ParseError
| IntegrityError
| DataError
| OperationalError.

(** *** The session

    [committed] is the table as other transactions see it, [flushed] the
    rows the open transaction has inserted, [pending] the objects added
    to the session and not yet sent ([session.new]); [ops] counts the
    round trips to the database. *)
Record Session := {
  committed : table;
  flushed : table;
  pending : table;
  ops : nat
}.

(** A computation on the session that may raise. *)
Definition M (A : Type) : Type := Session → (exn + A) * Session.

Global Instance M_ret : MRet M := fun A a s => (inr a, s).
Global Instance M_bind : MBind M := fun A B f m s =>
  match m s with
  | (inl e, s') => (inl e, s')
  | (inr a, s') => f a s'
  end.

Definition raise {A} (e : exn) : M A := fun s => (inl e, s).
Definition gets {A} (f : Session → A) : M A := fun s => (inr (f s), s).
Definition modify (f : Session → Session) : M unit := fun s => (inr (), f s).

(** [try: m  except Exception as e: h(e)] *)
Definition try_except {A} (m : M A) (h : exn → M A) : M A := fun s =>
  match m s with
  | (inl e, s') => h e s'
  | (inr a, s') => (inr a, s')
  end.

(** [for x in xs: acc = body(x, acc)] *)
Fixpoint for_each {A B} (xs : list A) (body : A → B → M B) (acc : B) : M B :=
  match xs with
  | [] => mret acc
  | x :: xs' => acc' ← body x acc; for_each xs' body acc'
  end.

Section session.

(** What lies outside the sources: the reading of a file by pandas,
    its parsing of a text as a number (truncated to an integer by
    [astype(int)], [None] for what [errors='coerce'] turns into NaN),
    whether the session of [app.core.database] flushes before a query,
    and the round trips on which the database fails. *)
Variable read_csv : string → exn + list csv_row.
Variable to_numeric_text : string → option Z.
Variable autoflush : bool.
Variable fault : nat → bool.

(** One round trip; it fails where [fault] says so. *)
Definition round_trip : M unit := fun s =>
  let s' := {| committed := committed s; flushed := flushed s;
               pending := pending s; ops := S (ops s) |} in
  if fault (ops s) then (inl OperationalError, s') else (inr (), s').

Definition has_show_id (sid : string) (rows : table) : bool :=
  existsb (fun r => bool_decide (show_id r = sid)) rows.

(** INSERT of the pending objects, one row after the other in the order
    they were added.  The values of a row are converted to the types of
    their columns first, so a [release_year] that INTEGER cannot hold is
    refused with a data error; then the unique index on [show_id] is
    checked. *)
Fixpoint insert_rows (rows : table) : M unit :=
  match rows with
  | [] => fun s =>
      (inr (), {| committed := committed s; flushed := flushed s;
                  pending := []; ops := ops s |})
  | r :: rest => fun s =>
      if negb (Sql.fits_integer (release_year r))
      then (inl DataError, s)
      else if has_show_id (show_id r) (committed s ++ flushed s)
      then (inl IntegrityError, s)
      else insert_rows rest
             {| committed := committed s; flushed := flushed s ++ [r];
                pending := pending s; ops := ops s |}
  end.

(** [db.flush()] *)
Definition flush : M unit := fun s => insert_rows (pending s) s.

(** [db.query(NetflixContent).filter(show_id == sid).first()] *)
Definition query_first (sid : string) : M (option NetflixContent) :=
  _ ← round_trip;
  _ ← (if autoflush then flush else mret ());
  gets (fun s => List.find (fun r => bool_decide (show_id r = sid))
                   (committed s ++ flushed s)).

(** [db.add(content)] *)
Definition add (content : NetflixContent) : M unit :=
  modify (fun s => {| committed := committed s; flushed := flushed s;
                      pending := pending s ++ [content]; ops := ops s |}).

(** [db.commit()] *)
Definition commit : M unit :=
  _ ← round_trip;
  _ ← flush;
  modify (fun s => {| committed := committed s ++ flushed s;
                      flushed := []; pending := pending s;
                      ops := ops s |}).

(** [db.rollback()] *)
Definition rollback : M unit :=
  modify (fun s => {| committed := committed s; flushed := [];
                      pending := []; ops := ops s |}).

(** [get_statistics(db)] on the session: one read of the table. *)
Definition get_statistics : M Stats.ContentStats :=
  _ ← round_trip;
  _ ← (if autoflush then flush else mret ());
  gets (fun s => Stats.get_statistics (committed s ++ flushed s)).

(** *** Normalisation of the frame *)

(** [pd.to_numeric(col, errors='coerce')] on a cell, after
    [fillna('')]: the empty text and what does not parse give NaN. *)
Definition to_numeric (c : cell) : option Z :=
  match c with
  | NaN => None
  | Int z => Some z
  | Text s => if Str.truthy s then to_numeric_text s else None
  end.

(** [.fillna(0).astype(int)] *)
Definition fillna_zero (n : option Z) : Z := default 0 n.

(** A row of [df] once the frame is prepared: the cells after
    [fillna('')], [show_id] as a string, [release_year] as an integer. *)
Record frame_row := {
  cells : csv_row;
  row_show_id : string;
  row_release_year : Z
}.

Definition fillna_row (r : csv_row) : csv_row :=
  {| csv_show_id := fillna_empty (csv_show_id r);
     csv_type := fillna_empty (csv_type r);
     csv_title := fillna_empty (csv_title r);
     csv_director := fillna_empty (csv_director r);
     csv_cast := fillna_empty (csv_cast r);
     csv_country := fillna_empty (csv_country r);
     csv_date_added := fillna_empty (csv_date_added r);
     csv_release_year := fillna_empty (csv_release_year r);
     csv_rating := fillna_empty (csv_rating r);
     csv_duration := fillna_empty (csv_duration r);
     csv_listed_in := fillna_empty (csv_listed_in r);
     csv_description := fillna_empty (csv_description r) |}.

Definition prepare_row (r : csv_row) : frame_row :=
  let r := fillna_row r in
  {| cells := r;
     row_show_id := astype_str (csv_show_id r);
     row_release_year := fillna_zero (to_numeric (csv_release_year r)) |}.

(** [NetflixContent(show_id=row['show_id'], ...)] *)
Definition new_content (row : frame_row) : NetflixContent :=
  {| show_id := row_show_id row;
     type := value_or_none (csv_type (cells row));
     title := value_or_none (csv_title (cells row));
     director := value_or_none (csv_director (cells row));
     cast := value_or_none (csv_cast (cells row));
     country := value_or_none (csv_country (cells row));
     date_added := value_or_none (csv_date_added (cells row));
     release_year :=
       if row_release_year row >? 0 then Some (row_release_year row)
       else None;
     rating := value_or_none (csv_rating (cells row));
     duration := value_or_none (csv_duration (cells row));
     listed_in := value_or_none (csv_listed_in (cells row));
     description := value_or_none (csv_description (cells row)) |}.

(** *** The import loop *)

Record counters := {
  records_inserted : Z;
  records_updated : Z;
  records_skipped : Z
}.

Record load_result := {
  status : string;
  records_processed : Z;
  result_inserted : Z;
  result_updated : Z;
  result_skipped : Z;
  statistics : Stats.ContentStats
}.

Definition batch_size : nat := 100.

(** [range(0, stop, step)] *)
Definition range_step (stop step : nat) : list nat :=
  (fun k => k * step)%nat <$> seq 0 (Nat.div (stop + step - 1) step).

(** The body of [for _, row in batch.iterrows()] *)
Definition import_row (row : frame_row) (c : counters) : M counters :=
  existing ← query_first (row_show_id row);
  match existing with
  | None =>
      _ ← add (new_content row);
      mret {| records_inserted := records_inserted c + 1;
              records_updated := records_updated c;
              records_skipped := records_skipped c |}
  | Some _ =>
      mret {| records_inserted := records_inserted c;
              records_updated := records_updated c;
              records_skipped := records_skipped c + 1 |}
  end.

(** The body of [for start_idx in range(0, len(df), batch_size)] *)
Definition import_batch (df : list frame_row) (start_idx : nat)
    (c : counters) : M counters :=
  let end_idx := Nat.min (start_idx + batch_size) (length df) in
  let batch := take (end_idx - start_idx) (drop start_idx df) in
  c ← for_each batch import_row c;
  _ ← commit;
  mret c.

(** The batches that start at [starts], from counters at zero. *)
Definition import_batches (df : list frame_row) (starts : list nat)
    : M counters :=
  for_each starts (import_batch df)
    {| records_inserted := 0; records_updated := 0;
       records_skipped := 0 |}.

Definition import_frame (df : list frame_row) : M counters :=
  import_batches df (range_step (length df) batch_size).

(** The [try] block of [load_netflix_data_from_csv]. *)
Definition load_body (csv_path : string) : M load_result :=
  match read_csv csv_path with
  | inl e => raise e
  | inr file =>
      let df := prepare_row <$> file in
      c ← import_frame df;
      stats ← get_statistics;
      mret {| status := "success";
              records_processed := Z.of_nat (length df);
              result_inserted := records_inserted c;
              result_updated := records_updated c;
              result_skipped := records_skipped c;
              statistics := stats |}
  end.

(** services/data_loader.py, [load_netflix_data_from_csv]: the block, and
    [except Exception as e: db.rollback(); raise e]. *)
Definition load_netflix_data_from_csv (csv_path : string) : M load_result :=
  try_except (load_body csv_path) (fun e => _ ← rollback; raise e).

End session.

End Loader.

(** ** Lookup by the primary key *)

Module ById.

(** A row of [netflix_content] with the [id] the database gave it; the
    primary key is what tells the rows of a [keyed_table] apart. *)
Definition keyed_table := list (Z * NetflixContent).

Inductive response :=
| Ok (row : Z * NetflixContent)
| NotFound.

(** routers/netflix.py, [get_content_by_id] *)
Definition get_content_by_id (content_id : Z) (db : keyed_table) : response :=
  let content := List.find (fun row => row.1 =? content_id) db in
  match content with
  | Some row => Ok row
  | None => NotFound
  end.

End ById.

(** ** Vocabulary of the properties *)

(** *** Facets *)

(** The tokens a column contributes: the trimmed pieces of every stored
    value that is neither NULL nor empty. *)
Definition column_token (col : NetflixContent → option string)
    (db : table) (t : string) : Prop :=
  ∃ r s, r ∈ db ∧ col r = Some s ∧ s ≠ "" ∧ t ∈ Str.tokens s.

(** A facet list: exactly the tokens of the column, ascending, each once. *)
Definition facet_of (col : NetflixContent → option string)
    (db : table) (l : list string) : Prop :=
  (∀ t, t ∈ l ↔ column_token col db t)
  ∧ StronglySorted String.le l
  ∧ NoDup l.

(** The facet list as the specification words it: the empty tokens are
    discarded. *)
Definition facet_of_nonempty (col : NetflixContent → option string)
    (db : table) (l : list string) : Prop :=
  (∀ t, t ∈ l ↔ t ≠ "" ∧ column_token col db t)
  ∧ StronglySorted String.le l
  ∧ NoDup l.

(** *** Statistics *)

(** The trimmed tokens of the category column, record by record. *)
Definition row_tokens (row : option string) : list string :=
  match row with
  | Some s => if Str.truthy s then Str.tokens s else []
  | None => []
  end.

(** All of them, over the whole table. *)
Definition category_tokens (db : table) : list string :=
  db ≫= fun r => row_tokens (listed_in r).

(** The sum of the counts of a ranking. *)
Definition total (d : Stats.dict) : Z := foldr (fun kv acc => kv.2 + acc) 0 d.

(** How often a token occurs. *)
Definition occurrences (k : string) (l : list string) : Z :=
  Z.of_nat (length (filter (k =.) l)).

(** Descending by count. *)
Definition count_desc (a b : string * Z) : Prop := b.2 ≤ a.2.

(** What a run of increments leaves in the dictionary. *)
Record counted (d0 d : Stats.dict) (l : list string) : Prop := {
  counted_get : ∀ k, Stats.get k d = Stats.get k d0 + occurrences k l;
  counted_total : total d = total d0 + Z.of_nat (length l);
  counted_keys : ∀ k, k ∈ d.*1 ↔ k ∈ d0.*1 ∨ k ∈ l;
  counted_NoDup : NoDup d0.*1 → NoDup d.*1;
  counted_pos :
    Forall (fun kv => 0 < kv.2) d0 → Forall (fun kv => 0 < kv.2) d
}.

(** The statistics as the specification words them: the counts add up to
    the number of non-empty tokens. *)
Definition by_category_counts_nonempty (db : table) : Prop :=
  let st := Stats.by_category (Stats.get_statistics db) in
  total st = Z.of_nat (length (filter (fun t => t ≠ "") (category_tokens db)))
  ∧ (length st ≤ 20)%nat
  ∧ StronglySorted count_desc st.

(** *** Query layer *)

(** [s.startswith(w)]; with [contains], the substring test of the
    specification. *)
Fixpoint startswith (w s : string) : bool :=
  match w, s with
  | EmptyString, _ => true
  | String _ _, EmptyString => false
  | String c w', String d s' => Ascii.eqb c d && startswith w' s'
  end.

(** [w in s] *)
Fixpoint contains (w s : string) : bool :=
  startswith w s
  || match s with
     | EmptyString => false
     | String _ s' => contains w s'
     end.

(** No character of [q] is special in a LIKE pattern. *)
Definition is_meta (c : ascii) : bool :=
  Ascii.eqb c Sql.backslash || Ascii.eqb c Sql.percent
  || Ascii.eqb c Sql.underscore.

(** [q] holds none of them. *)
Fixpoint meta_free (q : string) : bool :=
  match q with
  | EmptyString => true
  | String c q' => negb (is_meta c) && meta_free q'
  end.

(** The pattern of a literal text. *)
Fixpoint lits (w : string) : list Sql.pat :=
  match w with
  | EmptyString => []
  | String c w' => Sql.Lit c :: lits w'
  end.

(** The value of [col ILIKE f"%{v}%"] on a row. *)
Definition ilike_contains (v : string) (col : option string) : option bool :=
  match Sql.parse (Str.lower (Router.contains_pattern v)), col with
  | Some p, Some s => Some (Sql.like p (Str.lower s))
  | _, _ => None
  end.

(** The filter an optional parameter stands for: none when the parameter
    is absent or falsy. *)
Definition str_filter (param : option string)
    (test : string → NetflixContent → bool) (r : NetflixContent) : bool :=
  match param with
  | Some v => if Str.truthy v then test v r else true
  | None => true
  end.

(** The same for an integer parameter, falsy at 0. *)
Definition int_filter (param : option Z)
    (test : Z → NetflixContent → bool) (r : NetflixContent) : bool :=
  match param with
  | Some v => if v =? 0 then true else test v r
  | None => true
  end.

(** The tests behind the filters of a listing. *)
Definition test_eq (col : NetflixContent → option string)
    (v : string) (r : NetflixContent) : bool := Sql.eq_str v (col r).

Definition test_year (v : Z) (r : NetflixContent) : bool :=
  Sql.eq_int v (release_year r).

Definition test_ilike (col : NetflixContent → option string)
    (v : string) (r : NetflixContent) : bool :=
  Sql.holds (ilike_contains v (col r)).

(** The records a listing request selects. *)
Definition content_match
    (type_ rating_ : option string) (release_year_ : option Z)
    (country_ category title_ director_ cast_ : option string)
    (r : NetflixContent) : bool :=
  str_filter type_ (test_eq type) r
  && str_filter rating_ (test_eq rating) r
  && int_filter release_year_ test_year r
  && str_filter country_ (test_ilike country) r
  && str_filter category (test_ilike listed_in) r
  && str_filter title_ (test_ilike title) r
  && str_filter director_ (test_ilike director) r
  && str_filter cast_ (test_ilike cast) r.

(** The records a search request selects. *)
Definition search_match (q : string) (r : NetflixContent) : bool :=
  Sql.holds (Sql.or_ [ilike_contains q (title r);
                      ilike_contains q (director r);
                      ilike_contains q (cast r);
                      ilike_contains q (description r)]).

(** [q] appears, case-insensitively, in one of the four searched fields. *)
Definition field_contains (q : string) (col : option string) : bool :=
  match col with
  | Some s => contains (Str.lower q) (Str.lower s)
  | None => false
  end.

(** [q] appears in the title, the director, the cast or the description. *)
Definition appears_in (q : string) (r : NetflixContent) : bool :=
  existsb (field_contains q) [title r; director r; cast r; description r].



(** Free-text search as the specification words it, for any query string. *)
Definition search_is_substring_match (q : string) (limit offset : Z)
    (db : table) : Prop :=
  Router.search_content q limit offset db
  = Sql.page offset limit (List.filter (appears_in q) db).


(** *** Bulk import *)

(** The rows a session holds, committed or not. *)
Definition session_rows (s : Loader.Session) : table :=
  Loader.committed s ++ Loader.flushed s ++ Loader.pending s.

(** [spec m s Post Exn]: run from [s], [m] returns a value and a session
    that satisfy [Post], or raises in a session that satisfies [Exn]. *)
Definition spec {A} (m : Loader.M A) (s : Loader.Session)
    (Post : A → Loader.Session → Prop)
    (Exn : Loader.exn → Loader.Session → Prop) : Prop :=
  match m s with
  | (inr a, s') => Post a s'
  | (inl e, s') => Exn e s'
  end.

(** [stable I m]: [m] keeps the invariant [I], whether it returns or
    raises. *)
Definition stable {A} (I : Loader.Session → Prop) (m : Loader.M A) : Prop :=
  ∀ s, I s → spec m s (fun _ s' => I s') (fun _ s' => I s').

(** Every row of the session satisfies [P], before and after. *)
Definition keeps {A} (P : NetflixContent → Prop) (m : Loader.M A) : Prop :=
  stable (fun s => Forall P (session_rows s)) m.

(** The committed table is [t]. *)
Definition committed_is (t : table) (s : Loader.Session) : Prop :=
  Loader.committed s = t.

(** No row is waiting in the session. *)
Definition clean (s : Loader.Session) : Prop :=
  Loader.flushed s = [] ∧ Loader.pending s = [].

(** A stored release year is a positive integer or NULL. *)
Definition year_ok (r : NetflixContent) : Prop :=
  match release_year r with
  | None => True
  | Some z => 0 < z
  end.

(** The year a cell of the file stands for: the number it holds or parses
    to, if any. *)
Definition year_of_cell (to_numeric_text : string → option Z)
    (c : Loader.cell) : option Z :=
  Loader.to_numeric to_numeric_text (Loader.fillna_empty c).

(** The rows of the batch that starts at [start_idx]:
    [df.iloc[start_idx:end_idx]]. *)
Definition batch_at (df : list Loader.frame_row) (start_idx : nat)
    : list Loader.frame_row :=
  take (Nat.min (start_idx + Loader.batch_size) (length df) - start_idx)
       (drop start_idx df).

(** [n] more rows skipped. *)
Definition skipped_more (n : nat) (c : Loader.counters) : Loader.counters :=
  {| Loader.records_inserted := Loader.records_inserted c;
     Loader.records_updated := Loader.records_updated c;
     Loader.records_skipped := Loader.records_skipped c + Z.of_nat n |}.

(** *** Further vocabulary: facets and rankings *)

(** The character [c] occurs in [s]. *)
Fixpoint mem_char (c : ascii) (s : string) : bool :=
  match s with
  | EmptyString => false
  | String d s' => Ascii.eqb c d || mem_char c s'
  end.

(** The distinct elements of a list, in the order of their first
    occurrence: the key order of a [dict] filled from the list. *)
Fixpoint first_seen (l : list string) : list string :=
  match l with
  | [] => []
  | x :: l' => x :: filter (fun y => y ≠ x) (first_seen l')
  end.

(** The entries of a ranking whose count is [n]. *)
Definition with_count (n : Z) (d : Stats.dict) : Stats.dict :=
  filter (fun kv => kv.2 = n) d.

(** The ratings of the table that are neither NULL nor empty, row by row. *)
Definition rated (db : table) : list string :=
  omap id (List.filter Sql.ne_empty (map rating db)).

(** The number of records a filter selects. *)
Definition selected (test : NetflixContent → bool) (db : table) : Z :=
  Z.of_nat (length (List.filter test db)).

(** *** Further vocabulary: the query layer *)

(** No backslash occurs in [t]. *)
Definition no_backslash (t : string) : bool := negb (mem_char Sql.backslash t).




(** *** Further vocabulary: the bulk import *)

(** The ids of the rows the database can see are pairwise distinct: the
    unique constraint on [show_id]. *)
Definition unique_ids (s : Loader.Session) : Prop :=
  NoDup (show_id <$> (Loader.committed s ++ Loader.flushed s)).

(** The committed table still starts with the rows of [t]. *)
Definition extends (t : table) (s : Loader.Session) : Prop :=
  t `prefix_of` Loader.committed s.


(** The rows of a frame that are inserted: those whose id is not among
    [seen], the first of every id only. *)
Fixpoint fresh_rows (seen : list string) (df : list Loader.frame_row)
    : list Loader.frame_row :=
  match df with
  | [] => []
  | row :: rest =>
      if decide (Loader.row_show_id row ∈ seen) then fresh_rows seen rest
      else row :: fresh_rows (seen ++ [Loader.row_show_id row]) rest
  end.

(** The release year of every row of the file, as the import converts
    it, is one that the INTEGER column holds. *)
Definition years_fit (to_numeric_text : string → option Z)
    (file : list Loader.csv_row) : bool :=
  forallb
    (fun r => Sql.fits_integer
                (release_year
                   (Loader.new_content
                      (Loader.prepare_row to_numeric_text r))))
    file.


(** The release year of every row of a frame fits the INTEGER column. *)
Definition frame_fits (df : list Loader.frame_row) : Prop :=
  Forall (fun row => Sql.fits_integer
                       (release_year (Loader.new_content row)) = true) df.


(** *** Sample data *)

(** A record with the columns the examples use. *)
Definition mk (sid : string) (ty ti : option string) (yr : option Z)
    (ra co li : option string) : NetflixContent :=
  {| show_id := sid; type := ty; title := ti; director := None; cast := None;
     country := co; date_added := None; release_year := yr; rating := ra;
     duration := None; listed_in := li; description := None |}.

(** A row of a file with the cells the examples use. *)
Definition csv (sid ti yr li : Loader.cell) : Loader.csv_row :=
  {| Loader.csv_show_id := sid; Loader.csv_type := Loader.Text "Movie";
     Loader.csv_title := ti; Loader.csv_director := Loader.NaN;
     Loader.csv_cast := Loader.NaN; Loader.csv_country := Loader.NaN;
     Loader.csv_date_added := Loader.NaN; Loader.csv_release_year := yr;
     Loader.csv_rating := Loader.NaN; Loader.csv_duration := Loader.NaN;
     Loader.csv_listed_in := li; Loader.csv_description := Loader.NaN |}.

(** A file of three rows: a text id with a year, a year of zero, and a
    numeric id with a year that does not parse. *)
Definition three_rows : list Loader.csv_row :=
  [csv (Loader.Text "s1") (Loader.Text "Alpha") (Loader.Int 2020)
       (Loader.Text "Dramas, Kids");
   csv (Loader.Text "s2") (Loader.Text "Beta") (Loader.Int 0)
       (Loader.Text "Dramas");
   csv (Loader.Int 3) (Loader.Text "Gamma") (Loader.Text "n/a") Loader.NaN].

(** A file system with that one file. *)
Definition one_file (csv_path : string) : Loader.exn + list Loader.csv_row :=
  if decide (csv_path = "netflix.csv") then inr three_rows
  else inl Loader.ParseError.

(** No text parses as a number; the database never fails. *)
Definition no_number (_ : string) : option Z := None.
Definition no_fault (_ : nat) : bool := false.

(** A fresh session on an empty table. *)
Definition empty_session : Loader.Session :=
  {| Loader.committed := []; Loader.flushed := []; Loader.pending := [];
     Loader.ops := 0 |}.

(** A file whose second row has a release year beyond INTEGER. *)
Definition far_year_rows : list Loader.csv_row :=
  [csv (Loader.Text "s1") (Loader.Text "Alpha") (Loader.Int 2020) Loader.NaN;
   csv (Loader.Text "s9") (Loader.Text "Omega") (Loader.Int 3000000000)
       Loader.NaN].


(** ** Properties of the facets *)

Section facet_facts.

Implicit Types (db : table) (t s : string) (acc : gset string).

Lemma elem_of_foldl_add_token (l : list string) acc t :
  t ∈ foldl (fun st g => {[ Str.strip g ]} ∪ st) acc l
  ↔ t ∈ acc ∨ t ∈ Str.strip <$> l.
Proof.
  revert acc. induction l as [|g l IH]; intros acc; simpl.
  - rewrite elem_of_nil. tauto.
  - rewrite IH, elem_of_union, elem_of_singleton, elem_of_cons. tauto.
Qed.

Lemma truthy_ne s : Str.truthy s = true ↔ s ≠ "".
Proof. destruct s; simpl; split; congruence. Qed.

Lemma elem_of_add_row acc (row : option string) t :
  t ∈ Facets.add_row acc row
  ↔ t ∈ acc ∨ ∃ s, row = Some s ∧ s ≠ "" ∧ t ∈ Str.tokens s.
Proof.
  unfold Facets.add_row, Str.tokens. destruct row as [s|].
  - destruct (Str.truthy s) eqn:E.
    + rewrite elem_of_foldl_add_token. apply truthy_ne in E.
      split; [intros [?|?]|intros [?|(s'&[= <-]&_&?)]]; eauto.
    + split; [auto|]. intros [?|(s'&[= <-]&Hs&?)]; [done|].
      apply truthy_ne in Hs. congruence.
  - split; [auto|]. intros [?|(s'&?&_)]; done.
Qed.

Lemma elem_of_foldl_add_row (rows : list (option string)) acc t :
  t ∈ foldl Facets.add_row acc rows
  ↔ t ∈ acc ∨ ∃ s, Some s ∈ rows ∧ s ≠ "" ∧ t ∈ Str.tokens s.
Proof.
  revert acc. induction rows as [|row rows IH]; intros acc; simpl.
  - split; [auto|]. intros [?|(s&Hs&_)]; [done|]. by apply elem_of_nil in Hs.
  - rewrite IH, elem_of_add_row. split.
    + intros [[?|(s&->&?&?)]|(s&?&?&?)]; eauto.
      * right. exists s. split; [left|done].
      * right. exists s. split; [by right|done].
    + intros [?|(s&Hs&?&?)]; [auto|].
      apply elem_of_cons in Hs as [<-|?]; eauto 8.
Qed.

Lemma elem_of_sorted (xs : list string) t : t ∈ Str.sorted xs ↔ t ∈ xs.
Proof. unfold Str.sorted. by rewrite merge_sort_Permutation. Qed.

Lemma sorted_StronglySorted (xs : list string) :
  StronglySorted String.le (Str.sorted xs).
Proof. apply StronglySorted_merge_sort; apply _. Qed.

Lemma sorted_NoDup (xs : list string) : NoDup xs → NoDup (Str.sorted xs).
Proof. unfold Str.sorted. by rewrite merge_sort_Permutation. Qed.

Lemma elem_of_ne_empty_column (col : NetflixContent → option string) db s :
  Some s ∈ List.filter Sql.ne_empty (map col db)
  ↔ s ≠ "" ∧ ∃ r, r ∈ db ∧ col r = Some s.
Proof.
  rewrite list_elem_of_In, filter_In, in_map_iff. simpl.
  rewrite truthy_ne. split.
  - intros [(r&?&?%list_elem_of_In) ?]; eauto.
  - intros [? (r&?%list_elem_of_In&?)]; eauto.
Qed.

End facet_facts.

Lemma facet_of_token_set (col : NetflixContent → option string) db
    (rows : list (option string)) :
  (∀ s, Some s ∈ rows ↔ s ≠ "" ∧ ∃ r, r ∈ db ∧ col r = Some s) →
  facet_of col db (Str.sorted (elements (foldl Facets.add_row ∅ rows))).
Proof.
  intros Hrows. split; [|split].
  - intros t. rewrite elem_of_sorted, elem_of_elements, elem_of_foldl_add_row.
    unfold column_token. split.
    + intros [Ht|(s&Hs&?&?)]; [by apply elem_of_empty in Ht|].
      apply Hrows in Hs as (_&r&?&?). eauto 8.
    + intros (r&s&?&?&?&?). right. exists s. rewrite Hrows. eauto 8.
  - apply sorted_StronglySorted.
  - apply sorted_NoDup, NoDup_elements.
Qed.

(** C1 (as amended).  The category and country facets, from the router and
    from [get_unique_values], are exactly the trimmed pieces of the stored
    non-empty values split on the comma, empty pieces included, in
    ascending order and without repetition; a record holding "A, b ,C"
    alone gives the three tokens A, b and C. *)
Theorem facets_are_trimmed_tokens (db : table) :
  facet_of listed_in db (Facets.get_all_categories db)
  ∧ facet_of country db (Facets.get_all_countries db)
  ∧ facet_of listed_in db (Facets.categories (Facets.get_unique_values db))
  ∧ facet_of country db (Facets.countries (Facets.get_unique_values db))
  ∧ (∀ r, listed_in r = Some "A, b ,C" →
       ∀ t, t ∈ Facets.get_all_categories [r] ↔ t ∈ ["A"; "b"; "C"]).
Proof.
  assert (Hcat : ∀ db', facet_of listed_in db' (Facets.get_all_categories db')).
  { intros db'. apply facet_of_token_set. intros s.
    apply elem_of_ne_empty_column. }
  assert (Hcty : ∀ db', facet_of country db' (Facets.get_all_countries db')).
  { intros db'. apply facet_of_token_set. intros s.
    rewrite elem_of_remove_dups. apply elem_of_ne_empty_column. }
  repeat split; try apply Hcat; try apply Hcty.
  - intros Ht. apply (Hcat [r]) in Ht as (r'&s&Hr&Hs&_&Ht).
    apply list_elem_of_singleton in Hr as ->. rewrite H in Hs.
    injection Hs as <-. exact Ht.
  - intros Ht. apply (Hcat [r]). exists r, "A, b ,C".
    split; [by left|]. split; [done|]. split; [done|]. exact Ht.
Qed.

(** At the record "A, b ,C" the facet is the sorted list of the three. *)
Lemma facets_are_trimmed_tokens_witness :
  Facets.get_all_categories [mk "s1" None None None None None (Some "A, b ,C")]
  = ["A"; "C"; "b"]
  ∧ ∀ t, t ∈ Facets.get_all_categories
             [mk "s1" None None None None None (Some "A, b ,C")]
         ↔ t ∈ ["A"; "b"; "C"].
Proof.
  split; [reflexivity|].
  apply (facets_are_trimmed_tokens []). reflexivity.
Defined.

(** C1 (as stated) fails: two adjacent commas leave an empty token in the
    facet. *)
Lemma facets_keep_empty_token :
  ¬ facet_of_nonempty listed_in
      [mk "s1" None None None None None (Some "A,,B")]
      (Facets.get_all_categories
         [mk "s1" None None None None None (Some "A,,B")]).
Proof.
  intros [Hmem _].
  assert (Hin : "" ∈ Facets.get_all_categories
                   [mk "s1" None None None None None (Some "A,,B")]).
  { vm_compute. left. }
  apply Hmem in Hin as [Hne _]. by apply Hne.
Qed.

(** ** Properties of the statistics *)

Section dict_facts.

Implicit Types (d : Stats.dict) (k : string) (v n : Z).

Lemma get_set d k k' v :
  Stats.get k' (Stats.set k v d) = if decide (k = k') then v else Stats.get k' d.
Proof.
  induction d as [|[k0 n] d IH]; simpl.
  - destruct (decide (k = k')); done.
  - destruct (decide (k0 = k)) as [->|Hne]; simpl.
    + destruct (decide (k = k')); done.
    + rewrite IH. destruct (decide (k0 = k')) as [->|]; [|done].
      by rewrite decide_False.
Qed.

Lemma total_set d k v : total (Stats.set k v d) = total d - Stats.get k d + v.
Proof.
  induction d as [|[k0 n] d IH]; simpl; [lia|].
  case_decide; simpl; lia.
Qed.

Lemma keys_set d k v :
  (Stats.set k v d).*1 = if decide (k ∈ d.*1) then d.*1 else d.*1 ++ [k].
Proof.
  induction d as [|[k0 n] d IH].
  - rewrite decide_False; [done|]. apply not_elem_of_nil.
  - cbn [Stats.set]. rewrite !fmap_cons.
    destruct (decide (k0 = k)) as [->|Hne]; rewrite ?fmap_cons; cbn [fst].
    + rewrite decide_True; [done|left].
    + rewrite IH. destruct (decide (k ∈ d.*1)) as [Hin|Hnin].
      * rewrite decide_True; [done|by right].
      * rewrite decide_False; [done|].
        intros [?|?]%elem_of_cons; congruence.
Qed.

Lemma NoDup_keys_set d k v : NoDup d.*1 → NoDup (Stats.set k v d).*1.
Proof.
  intros Hd. rewrite keys_set. case_decide as Hk; [done|].
  apply NoDup_app. split; [done|]. split; [|apply NoDup_singleton].
  intros x Hx ->%list_elem_of_singleton. done.
Qed.

Lemma elem_of_keys_set d k k' v :
  k' ∈ (Stats.set k v d).*1 ↔ k' = k ∨ k' ∈ d.*1.
Proof.
  rewrite keys_set. case_decide as Hk.
  - split; [auto|]. by intros [->|?].
  - rewrite elem_of_app, list_elem_of_singleton. tauto.
Qed.

Lemma get_nonneg d k : Forall (fun kv => 0 < kv.2) d → 0 ≤ Stats.get k d.
Proof.
  induction 1 as [|[k0 n] d Hn _ IH]; simpl in *; [done|].
  case_decide; lia.
Qed.

Lemma Forall_pos_set d k v :
  0 < v → Forall (fun kv => 0 < kv.2) d →
  Forall (fun kv => 0 < kv.2) (Stats.set k v d).
Proof.
  intros Hv. induction 1 as [|[k0 n] d Hn Hd IH]; simpl in *.
  - by constructor.
  - case_decide; constructor; auto.
Qed.

Lemma get_elem_of d k n : NoDup d.*1 → (k, n) ∈ d → Stats.get k d = n.
Proof.
  induction d as [|[k0 n0] d IH]; simpl; intros Hd Hin.
  - by apply elem_of_nil in Hin.
  - apply NoDup_cons in Hd as [Hk0 Hd].
    apply elem_of_cons in Hin as [[= <- <-]|Hin].
    + by rewrite decide_True.
    + rewrite decide_False; [auto|]. intros ->. apply Hk0.
      apply list_elem_of_fmap. by exists (k, n).
Qed.

Lemma occurrences_cons k t l :
  occurrences k (t :: l) = (if decide (k = t) then 1 else 0) + occurrences k l.
Proof.
  unfold occurrences. rewrite filter_cons.
  case_decide; simpl length; lia.
Qed.

Lemma counted_foldl_incr l d0 : counted d0 (foldl Stats.incr d0 l) l.
Proof.
  revert d0. induction l as [|t l IH]; intros d0; simpl.
  - split; try done.
    + intros k. unfold occurrences. simpl. lia.
    + simpl. lia.
    + intros k. rewrite elem_of_nil. tauto.
  - destruct (IH (Stats.incr d0 t)) as [Hg Ht Hk Hn Hp]. split.
    + intros k. rewrite Hg, occurrences_cons. unfold Stats.incr.
      rewrite get_set. repeat case_decide; subst; try done; lia.
    + rewrite Ht. unfold Stats.incr. rewrite total_set.
      rewrite length_cons. lia.
    + intros k. rewrite Hk. unfold Stats.incr.
      rewrite elem_of_keys_set, elem_of_cons. tauto.
    + intros Hd. by apply Hn, NoDup_keys_set.
    + intros Hd. apply Hp, Forall_pos_set; [|done].
      pose proof (get_nonneg d0 t Hd). lia.
Qed.

Lemma foldl_count_row (rows : list (option string)) d0 :
  foldl Stats.count_row d0 rows = foldl Stats.incr d0 (rows ≫= row_tokens).
Proof.
  revert d0. induction rows as [|row rows IH]; intros d0; [done|].
  simpl. rewrite foldl_app, IH. f_equal.
  unfold Stats.count_row, row_tokens.
  destruct row as [s|]; [|done]. by destruct (Str.truthy s).
Qed.

Lemma genres_query_tokens (db : table) :
  List.filter Sql.ne_empty (map listed_in db) ≫= row_tokens
  = category_tokens db.
Proof.
  unfold category_tokens. induction db as [|r db IH]; [done|].
  cbn [map List.filter]. rewrite (bind_cons _ r), <- IH.
  destruct (listed_in r) as [s|]; cbn [Sql.ne_empty row_tokens]; [|done].
  destruct (Str.truthy s) eqn:Es; [|done].
  rewrite bind_cons. cbn [row_tokens]. by rewrite Es.
Qed.

End dict_facts.

Section ranking_facts.

Implicit Types (d l : Stats.dict) (x : string * Z).

Lemma insert_desc_Permutation x l : Stats.insert_desc x l ≡ₚ x :: l.
Proof.
  induction l as [|y l IH]; simpl; [done|].
  destruct (Z.ltb x.2 y.2); [|done].
  rewrite IH. apply Permutation_swap.
Qed.

Lemma sorted_desc_Permutation d : Stats.sorted_desc d ≡ₚ d.
Proof.
  induction d as [|x d IH]; simpl; [done|].
  by rewrite insert_desc_Permutation, IH.
Qed.

Lemma insert_desc_sorted x l :
  StronglySorted count_desc l → StronglySorted count_desc (Stats.insert_desc x l).
Proof.
  induction 1 as [|y l Hl IH Hy]; simpl.
  - repeat constructor.
  - destruct (Z.ltb x.2 y.2) eqn:E.
    + apply Z.ltb_lt in E. constructor; [done|].
      rewrite insert_desc_Permutation. constructor; [|done].
      unfold count_desc. lia.
    + apply Z.ltb_ge in E. constructor; [by constructor|].
      constructor; [done|].
      eapply Forall_impl; [exact Hy|]. unfold count_desc. intros; simpl in *. lia.
Qed.

Lemma sorted_desc_sorted d : StronglySorted count_desc (Stats.sorted_desc d).
Proof.
  induction d as [|x d IH]; simpl; [constructor|].
  by apply insert_desc_sorted.
Qed.

Lemma StronglySorted_take {A} (R : relation A) n (l : list A) :
  StronglySorted R l → StronglySorted R (take n l).
Proof.
  intros Hl. revert n. induction Hl as [|y l Hl IH Hy]; intros [|n]; simpl;
    try constructor; auto using Forall_take.
Qed.

Lemma total_Permutation d l : d ≡ₚ l → total d = total l.
Proof. induction 1; simpl; lia. Qed.

Lemma total_take_le n d :
  Forall (fun kv => 0 < kv.2) d → total (take n d) ≤ total d.
Proof.
  intros Hd. revert n. induction Hd as [|x d Hx Hd IH]; intros [|n]; simpl;
    try lia.
  - assert (0 ≤ total d); [|lia].
    clear -Hd. induction Hd; simpl; lia.
  - specialize (IH n). lia.
Qed.

End ranking_facts.

(** C2 (as amended).  [by_category] has at most 20 entries and is sorted by
    count descending; the count of an entry is the number of occurrences of
    its token among the trimmed tokens of all category fields, the empty
    token counted like any other; the counts add up to at most the number of
    tokens, and to exactly that number when the store holds at most 20
    distinct tokens. *)
Theorem by_category_ranking (db : table) :
  let st := Stats.by_category (Stats.get_statistics db) in
  let toks := category_tokens db in
  (length st ≤ 20)%nat
  ∧ StronglySorted count_desc st
  ∧ (∀ k n, (k, n) ∈ st → n = occurrences k toks ∧ 0 < n)
  ∧ total st ≤ Z.of_nat (length toks)
  ∧ ((length (remove_dups toks) ≤ 20)%nat → total st = Z.of_nat (length toks)).
Proof.
  cbn zeta. unfold Stats.get_statistics. cbn [Stats.by_category].
  rewrite foldl_count_row, genres_query_tokens.
  set (toks := category_tokens db).
  destruct (counted_foldl_incr toks []) as [Hg Ht Hk Hn Hp].
  set (d := foldl Stats.incr [] toks) in *.
  assert (Hnd : NoDup d.*1) by (apply Hn; constructor).
  assert (Hpos : Forall (fun kv => 0 < kv.2) d) by (apply Hp; constructor).
  assert (Hpos' : Forall (fun kv => 0 < kv.2) (Stats.sorted_desc d)).
  { by rewrite sorted_desc_Permutation. }
  split; [|split; [|split; [|split]]].
  - rewrite length_take. lia.
  - apply StronglySorted_take, sorted_desc_sorted.
  - intros k n Hin. apply subseteq_take in Hin.
    rewrite sorted_desc_Permutation in Hin. split.
    + rewrite <- (get_elem_of d k n Hnd Hin), Hg. simpl. lia.
    + by apply (proj1 (Forall_forall _ _) Hpos (k, n)).
  - etrans; [by apply total_take_le|].
    rewrite (total_Permutation _ _ (sorted_desc_Permutation d)), Ht.
    simpl. lia.
  - intros Hle. rewrite take_ge.
    + rewrite (total_Permutation _ _ (sorted_desc_Permutation d)), Ht.
      simpl. lia.
    + rewrite sorted_desc_Permutation, <- (length_fmap fst).
      assert (Hperm : d.*1 ≡ₚ remove_dups toks).
      { apply NoDup_Permutation; [done|apply NoDup_remove_dups|].
        intros k. rewrite Hk, elem_of_remove_dups, elem_of_nil. tauto. }
      by rewrite Hperm.
Qed.

(** Two records, four distinct tokens: the ranking and its total. *)
Lemma by_category_ranking_witness :
  let db := [mk "s1" None None None None None (Some "Dramas, Comedies");
             mk "s2" None None None None None (Some "Comedies ,Kids,, Dramas")] in
  Stats.by_category (Stats.get_statistics db)
  = [("Dramas", 2); ("Comedies", 2); ("Kids", 1); ("", 1)]
  ∧ total (Stats.by_category (Stats.get_statistics db)) = 6.
Proof.
  cbn zeta. split; [reflexivity|].
  etrans; [apply by_category_ranking; vm_compute; lia|reflexivity].
Defined.

(** C2 (as stated) fails: the empty token between two commas is counted. *)
Lemma by_category_counts_empty_token :
  ¬ by_category_counts_nonempty
      [mk "s1" None None None None None (Some "A,,B")].
Proof. intros [Hsum _]. vm_compute in Hsum. discriminate. Qed.

(** With 21 distinct tokens the ranking is cut and its counts add up to 20. *)
Example by_category_cut_at_20 :
  let db := [mk "s1" None None None None None
               (Some "a,b,c,d,e,f,g,h,i,j,k,l,m,n,o,p,q,r,s,t,u")] in
  total (Stats.by_category (Stats.get_statistics db)) = 20
  ∧ length (category_tokens db) = 21%nat.
Proof. split; reflexivity. Qed.

(** ** Properties of the query layer *)

Section like_facts.

Implicit Types (w s q : string) (c : ascii).

Lemma app_String c w s : String c w +:+ s = String c (w +:+ s).
Proof. reflexivity. Qed.

Lemma startswith_spec w s :
  startswith w s = true ↔ ∃ post, s = w +:+ post.
Proof.
  revert s. induction w as [|c w IH]; intros s; simpl.
  - split; [eauto|done].
  - destruct s as [|d s].
    + split; [done|]. by intros [post ?].
    + rewrite andb_true_iff, IH, Ascii.eqb_eq. split.
      * intros [-> [post ->]]. by exists post.
      * intros [post [= -> ->]]. eauto.
Qed.

Lemma contains_spec w s :
  contains w s = true ↔ ∃ pre post, s = pre +:+ w +:+ post.
Proof.
  induction s as [|d s IH]; simpl.
  - rewrite orb_false_r, startswith_spec. split.
    + intros [post ->]. by exists "", post.
    + intros (pre & post & H). destruct pre; [by exists post|done].
  - rewrite orb_true_iff, IH, startswith_spec. split.
    + intros [[post ->]|(pre & post & ->)].
      * by exists "", post.
      * by exists (String d pre), post.
    + intros (pre & post & H). destruct pre as [|e pre].
      * left. by exists post.
      * right. injection H as -> ->. by exists pre, post.
Qed.

Lemma lower_app w s : Str.lower (w +:+ s) = Str.lower w +:+ Str.lower s.
Proof.
  induction w as [|c w IH]; [done|].
  rewrite app_String. simpl. by rewrite IH, app_String.
Qed.

Lemma is_meta_lower c : is_meta (Str.lower_char c) = is_meta c.
Proof.
  destruct c as [[] [] [] [] [] [] [] []]; reflexivity.
Qed.

Lemma meta_free_lower q : meta_free (Str.lower q) = meta_free q.
Proof.
  induction q as [|c q IH]; simpl; [done|]. by rewrite is_meta_lower, IH.
Qed.

Lemma like_any_nil s : Sql.like [Sql.Any] s = true.
Proof. induction s as [|d s IH]; simpl in *; [done|]. exact IH. Qed.

Lemma like_lits_any w s :
  Sql.like (lits w ++ [Sql.Any]) s = startswith w s.
Proof.
  revert s. induction w as [|c w IH]; intros s.
  - simpl lits. rewrite app_nil_l, like_any_nil. by destruct s.
  - destruct s as [|d s]; [done|]. simpl. by rewrite <- IH.
Qed.

Lemma like_any_cons (p : list Sql.pat) s :
  Sql.like (Sql.Any :: p) s
  = Sql.like p s
    || match s with
       | EmptyString => false
       | String _ s' => Sql.like (Sql.Any :: p) s'
       end.
Proof. by destruct s. Qed.

Lemma like_contains w s :
  Sql.like (Sql.Any :: lits w ++ [Sql.Any]) s = contains w s.
Proof.
  induction s as [|d s IH]; rewrite like_any_cons, like_lits_any;
    simpl contains; [done|]. by rewrite IH.
Qed.

(** The pattern [%v%] is always accepted. *)
Lemma parse_app_percent_Some (n : nat) w :
  (String.length w ≤ n)%nat →
  is_Some (Sql.parse (w +:+ String Sql.percent EmptyString)).
Proof.
  revert w. induction n as [|n IH]; intros w Hn.
  - destruct w; [by eexists|simpl in Hn; lia].
  - destruct w as [|c w]; [by eexists|]. simpl in Hn.
    rewrite app_String. cbn [Sql.parse].
    destruct (Ascii.eqb c Sql.backslash).
    + destruct w as [|c' w]; [by eexists|].
      rewrite app_String. simpl in Hn.
      destruct (IH w) as [p ->]; [lia|]. by eexists.
    + destruct (IH w) as [p ->]; [lia|].
      destruct (Ascii.eqb c Sql.percent); [by eexists|].
      destruct (Ascii.eqb c Sql.underscore); by eexists.
Qed.

Lemma parse_contains_pattern v :
  is_Some (Sql.parse (Str.lower (Router.contains_pattern v))).
Proof.
  unfold Router.contains_pattern. cbn [Str.lower].
  rewrite lower_app.
  destruct (parse_app_percent_Some (String.length (Str.lower v))
              (Str.lower v)) as [p Hp]; [done|].
  change (Str.lower_char Sql.percent) with Sql.percent.
  change (Str.lower (String Sql.percent "")) with (String Sql.percent "").
  cbn [Sql.parse]. change (Ascii.eqb Sql.percent Sql.backslash) with false.
  change (Ascii.eqb Sql.percent Sql.percent) with true.
  cbv iota. rewrite Hp. by eexists.
Qed.

Lemma parse_literal w :
  meta_free w = true →
  Sql.parse (w +:+ String Sql.percent EmptyString)
  = Some (lits w ++ [Sql.Any]).
Proof.
  induction w as [|c w IH]; [done|]. simpl meta_free.
  intros [Hc Hw]%andb_true_iff. apply negb_true_iff in Hc.
  unfold is_meta in Hc.
  apply orb_false_iff in Hc as [[Hb Hp]%orb_false_iff Hu].
  rewrite app_String. cbn [Sql.parse lits].
  rewrite Hb, Hp, Hu, (IH Hw). done.
Qed.

Lemma parse_contains_literal q :
  meta_free q = true →
  Sql.parse (Str.lower (Router.contains_pattern q))
  = Some (Sql.Any :: lits (Str.lower q) ++ [Sql.Any]).
Proof.
  intros Hq. unfold Router.contains_pattern. cbn [Str.lower].
  rewrite lower_app.
  change (Str.lower_char Sql.percent) with Sql.percent.
  change (Str.lower (String Sql.percent "")) with (String Sql.percent "").
  cbn [Sql.parse]. change (Ascii.eqb Sql.percent Sql.backslash) with false.
  change (Ascii.eqb Sql.percent Sql.percent) with true.
  cbv iota. rewrite parse_literal; [done|]. by rewrite meta_free_lower.
Qed.

End like_facts.

Section query_facts.

Implicit Types (db query : table) (r : NetflixContent) (v q : string).

Lemma ilike_contains_eq v (col : option string) :
  Sql.ilike (Router.contains_pattern v) col = Some (ilike_contains v col).
Proof.
  unfold Sql.ilike, ilike_contains.
  destruct (parse_contains_pattern v) as [p ->]. by destruct col.
Qed.

Lemma where_total (pred : NetflixContent → option (option bool))
    (f : NetflixContent → option bool) query :
  (∀ r, pred r = Some (f r)) →
  Sql.where_ pred query = Some (List.filter (fun r => Sql.holds (f r)) query).
Proof.
  intros Hpred. induction query as [|r query IH]; [done|].
  cbn [Sql.where_ List.filter]. rewrite Hpred, IH. simpl.
  by destruct (Sql.holds (f r)).
Qed.

Lemma filter_ilike_eq col v query :
  Router.filter_ilike col v query
  = Some (List.filter (test_ilike col v) query).
Proof.
  unfold Router.filter_ilike.
  apply (where_total _ (fun r => ilike_contains v (col r))).
  intros r. apply ilike_contains_eq.
Qed.

Lemma filter_true query : List.filter (fun _ => true) query = query.
Proof. induction query as [|r query IH]; simpl; congruence. Qed.

Lemma filter_and (f g : NetflixContent → bool) query :
  List.filter g (List.filter f query)
  = List.filter (fun r => f r && g r) query.
Proof.
  induction query as [|r query IH]; [done|]. simpl.
  destruct (f r); simpl; [|done]. destruct (g r); congruence.
Qed.

Lemma if_str_filter (param : option string)
    (f : string → table → option table)
    (test : string → NetflixContent → bool) query :
  (∀ v l, f v l = Some (List.filter (test v) l)) →
  Router.if_str param f query
  = Some (List.filter (str_filter param test) query).
Proof.
  intros Hf. unfold Router.if_str, str_filter.
  destruct param as [v|]; [destruct (Str.truthy v)|];
    rewrite ?Hf, ?filter_true; done.
Qed.

Lemma if_int_filter (param : option Z)
    (f : Z → table → option table)
    (test : Z → NetflixContent → bool) query :
  (∀ y l, f y l = Some (List.filter (test y) l)) →
  Router.if_int param f query
  = Some (List.filter (int_filter param test) query).
Proof.
  intros Hf. unfold Router.if_int, int_filter.
  destruct param as [v|]; [destruct (v =? 0)|];
    rewrite ?Hf, ?filter_true; done.
Qed.

Lemma get_content_query_eq
    (ty ra : option string) (yr : option Z)
    (co ca ti di cs : option string) db :
  Router.get_content_query ty ra yr co ca ti di cs db
  = Some (List.filter (content_match ty ra yr co ca ti di cs) db).
Proof.
  unfold Router.get_content_query, content_match.
  rewrite (if_str_filter ty _ (test_eq type)) by done. simpl.
  rewrite (if_str_filter ra _ (test_eq rating)) by done. simpl.
  rewrite (if_int_filter yr _ test_year) by done. simpl.
  rewrite (if_str_filter co _ (test_ilike country))
    by apply filter_ilike_eq. simpl.
  rewrite (if_str_filter ca _ (test_ilike listed_in))
    by apply filter_ilike_eq. simpl.
  rewrite (if_str_filter ti _ (test_ilike title))
    by apply filter_ilike_eq. simpl.
  rewrite (if_str_filter di _ (test_ilike director))
    by apply filter_ilike_eq. simpl.
  rewrite (if_str_filter cs _ (test_ilike cast))
    by apply filter_ilike_eq. simpl.
  rewrite !filter_and. f_equal. apply List.filter_ext.
  intros r. by rewrite !andb_assoc.
Qed.

Lemma search_content_query_eq q db :
  Router.search_content_query q db = Some (List.filter (search_match q) db).
Proof.
  unfold Router.search_content_query, search_match.
  apply (where_total _ (fun r =>
    Sql.or_ [ilike_contains q (title r); ilike_contains q (director r);
             ilike_contains q (cast r); ilike_contains q (description r)])).
  intros r. by rewrite !ilike_contains_eq.
Qed.

Lemma holds_or3 (a b : option bool) :
  Sql.holds (Sql.or3 a b) = Sql.holds a || Sql.holds b.
Proof. by destruct a as [[]|], b as [[]|]. Qed.

Lemma holds_or_ (xs : list (option bool)) :
  Sql.holds (Sql.or_ xs) = existsb Sql.holds xs.
Proof.
  induction xs as [|a xs IH]; [done|].
  cbn [Sql.or_ foldr existsb]. rewrite holds_or3. by rewrite <- IH.
Qed.

Lemma ilike_contains_literal q (col : option string) :
  meta_free q = true →
  Sql.holds (ilike_contains q col) = field_contains q col.
Proof.
  intros Hq. unfold ilike_contains, field_contains.
  rewrite (parse_contains_literal q Hq).
  destruct col as [s|]; [|done]. cbn [Sql.holds].
  rewrite like_contains. by destruct (contains _ _).
Qed.

Lemma search_match_literal q r :
  meta_free q = true → search_match q r = appears_in q r.
Proof.
  intros Hq. unfold search_match, appears_in. rewrite holds_or_.
  cbn [existsb]. by rewrite !ilike_contains_literal.
Qed.


Lemma row_count_spec (n : Z) :
  Sql.row_count n = true ↔ 0 ≤ n ≤ Sql.bigint_max.
Proof. unfold Sql.row_count. rewrite andb_true_iff, !Z.leb_le. tauto. Qed.

Lemma page_accepted (L O : Z) query :
  0 ≤ O ≤ Sql.bigint_max → 0 ≤ L ≤ Sql.bigint_max →
  Sql.page O L query = Some (Sql.slice O L query).
Proof.
  intros HO%row_count_spec HL%row_count_spec. unfold Sql.page.
  by rewrite HO, HL.
Qed.

Lemma page_Some (L O : Z) query rows :
  Sql.page O L query = Some rows →
  rows = Sql.slice O L query
  ∧ 0 ≤ O ≤ Sql.bigint_max ∧ 0 ≤ L ≤ Sql.bigint_max.
Proof.
  unfold Sql.page.
  destruct (Sql.row_count O) eqn:HO; [|done].
  destruct (Sql.row_count L) eqn:HL; [|done].
  apply row_count_spec in HO, HL. by intros [= <-].
Qed.


Lemma elem_of_slice (L O : Z) query r :
  r ∈ Sql.slice O L query → r ∈ query.
Proof. unfold Sql.slice. by intros ?%subseteq_take%subseteq_drop. Qed.



End query_facts.

(** C3 (as amended).  For a query string without the LIKE characters
    percent, underscore and backslash, search returns the page of the records
    in which the string appears, case-insensitively, as a substring of the
    title, the director, the cast or the description. *)
Theorem search_returns_substring_matches (q : string) (limit offset : Z)
    (db : table) :
  meta_free q = true →
  search_is_substring_match q limit offset db
  ∧ ∀ r, appears_in q r = true
         ↔ ∃ s, Some s ∈ [title r; director r; cast r; description r]
                ∧ ∃ pre post, Str.lower s = pre +:+ Str.lower q +:+ post.
Proof.
  intros Hq. split.
  - unfold search_is_substring_match, Router.search_content.
    rewrite search_content_query_eq. simpl. f_equal.
    apply List.filter_ext. intros r. by apply search_match_literal.
  - intros r. unfold appears_in. rewrite existsb_exists. split.
    + intros (col & Hcol%list_elem_of_In & Hc). destruct col as [s|]; [|done].
      exists s. split; [done|]. by apply contains_spec.
    + intros (s & Hs & Hc). exists (Some s).
      split; [by apply list_elem_of_In|]. by apply contains_spec.
Qed.

Lemma search_returns_substring_matches_witness :
  Router.search_content "dark" 20 0
    [mk "s1" None (Some "The DARK Knight") None None None None;
     mk "s2" None (Some "Light") None None None None]
  = Some [mk "s1" None (Some "The DARK Knight") None None None None].
Proof.
  etrans; [apply search_returns_substring_matches; reflexivity|reflexivity].
Defined.

(** C3 (as stated) fails: the underscore of a query matches any character,
    so a title without an underscore is returned. *)
Lemma search_underscore_matches_any :
  ¬ search_is_substring_match "_" 20 0
      [mk "s2" None (Some "Light") None None None None].
Proof. unfold search_is_substring_match. vm_compute. discriminate. Qed.







(** C10.  A search request whose [q] is missing or empty is answered with a
    validation error whatever the store holds, and the search handler only
    ever runs on a query of at least one character. *)
Theorem search_requires_query (limit offset : option Z) (db : table) :
  Router.search_content_endpoint None limit offset db
  = Router.ValidationError
  ∧ Router.search_content_endpoint (Some "") limit offset db
    = Router.ValidationError
  ∧ ∀ q rows,
      Router.search_content_endpoint q limit offset db = Router.Ok rows →
      ∃ q' L O,
        q = Some q' ∧ (1 ≤ String.length q')%nat
        ∧ Router.limit_param limit = Some L
        ∧ Router.offset_param offset = Some O
        ∧ Router.search_content q' L O db = Some rows.
Proof.
  split; [done|]. split; [done|].
  intros q rows. unfold Router.search_content_endpoint.
  destruct q as [q'|]; [|done]. cbn [Router.query_str_required].
  destruct (1 <=? String.length q')%nat eqn:Hlen; [|done].
  apply Nat.leb_le in Hlen. unfold Router.with_page.
  destruct (Router.limit_param limit) as [L|]; [|done].
  destruct (Router.offset_param offset) as [O|]; [|done].
  unfold Router.respond.
  destruct (Router.search_content q' L O db) as [rows'|] eqn:E; [|done].
  intros [= <-]. by exists q', L, O.
Qed.

Lemma search_requires_query_witness :
  ∃ q', Some "dark" = Some q' ∧ (1 ≤ String.length q')%nat.
Proof.
  destruct (search_requires_query None None
              [mk "s1" None (Some "The DARK Knight") None None None None])
    as (_ & _ & H).
  destruct (H (Some "dark") _ eq_refl) as (q' & L & O & Hq & Hlen & _).
  by exists q'.
Defined.

(** ** Properties of the bulk import *)

Section monad_facts.

Implicit Types (s : Loader.Session) (Exn : Loader.exn → Loader.Session → Prop).

Lemma spec_bind {A B} (m : Loader.M A) (f : A → Loader.M B) s
    (Post : B → Loader.Session → Prop) Exn :
  spec m s (fun a s' => spec (f a) s' Post Exn) Exn →
  spec (m ≫= f) s Post Exn.
Proof.
  unfold spec, mbind, Loader.M_bind. by destruct (m s) as [[e|a] s'].
Qed.

Lemma spec_mono {A} (m : Loader.M A) s
    (Post Post' : A → Loader.Session → Prop) Exn
    (Exn' : Loader.exn → Loader.Session → Prop) :
  spec m s Post Exn →
  (∀ a s', Post a s' → Post' a s') →
  (∀ e s', Exn e s' → Exn' e s') →
  spec m s Post' Exn'.
Proof.
  unfold spec. destruct (m s) as [[e|a] s']; auto.
Qed.

Lemma spec_try_except {A} (m : Loader.M A) (h : Loader.exn → Loader.M A) s
    (Post : A → Loader.Session → Prop) Exn :
  spec m s Post (fun e s' => spec (h e) s' Post Exn) →
  spec (Loader.try_except m h) s Post Exn.
Proof.
  unfold spec, Loader.try_except. by destruct (m s) as [[e|a] s'].
Qed.

Lemma spec_for_each {A B} (I : B → Loader.Session → Prop) Exn
    (xs : list A) (body : A → B → Loader.M B) (acc : B) s :
  I acc s →
  (∀ x acc s, x ∈ xs → I acc s → spec (body x acc) s I Exn) →
  spec (Loader.for_each xs body acc) s I Exn.
Proof.
  revert acc s. induction xs as [|x xs IH]; intros acc s Hacc Hbody.
  - done.
  - cbn [Loader.for_each]. apply spec_bind.
    eapply spec_mono; [apply Hbody; [left|done]| |done].
    intros acc' s' Hacc'. apply IH; [done|].
    intros y ? ? Hy. apply Hbody. by right.
Qed.

End monad_facts.

Section import_facts.

Variable read_csv : string → Loader.exn + list Loader.csv_row.
Variable to_numeric_text : string → option Z.
Variable autoflush : bool.
Variable fault : nat → bool.

Implicit Types (s : Loader.Session) (c : Loader.counters)
  (row : Loader.frame_row) (P : NetflixContent → Prop).

Local Abbreviation load :=
  (Loader.load_netflix_data_from_csv read_csv to_numeric_text autoflush fault).
Local Abbreviation import_row := (Loader.import_row autoflush fault).
Local Abbreviation import_batch := (Loader.import_batch autoflush fault).
Local Abbreviation import_frame := (Loader.import_frame autoflush fault).

(** *** The counter of updates *)

Lemma import_row_updated row c s :
  Loader.records_updated c = 0 →
  spec (import_row row c) s
    (fun c' _ => Loader.records_updated c' = 0) (fun _ _ => True).
Proof.
  intros Hc. unfold Loader.import_row. apply spec_bind.
  unfold spec. destruct (Loader.query_first _ _ _ _) as [[e|[r|]] s']; done.
Qed.

Lemma import_frame_updated (df : list Loader.frame_row) s :
  spec (import_frame df) s
    (fun c' _ => Loader.records_updated c' = 0) (fun _ _ => True).
Proof.
  unfold Loader.import_frame, Loader.import_batches.
  apply (spec_for_each (fun c' _ => Loader.records_updated c' = 0));
    [done|].
  intros start c s' _ Hc. unfold Loader.import_batch. apply spec_bind.
  eapply spec_mono;
    [apply (spec_for_each (fun c' _ => Loader.records_updated c' = 0));
     [exact Hc|]| |done].
  - intros row c1 s1 _ Hc1. by apply import_row_updated.
  - intros c1 s1 Hc1. cbn beta. apply spec_bind. unfold spec.
    destruct (Loader.commit fault s1) as [[e|[]] s2]; done.
Qed.

(** *** Invariants of the session *)

Lemma stable_ret {A} I (a : A) : stable I (mret a).
Proof. by intros s Hs. Qed.

Lemma stable_raise {A} I e : stable I (@Loader.raise A e).
Proof. by intros s Hs. Qed.

Lemma stable_gets {A} I (f : Loader.Session → A) : stable I (Loader.gets f).
Proof. by intros s Hs. Qed.

Lemma stable_bind {A B} I (m : Loader.M A) (f : A → Loader.M B) :
  stable I m → (∀ a, stable I (f a)) → stable I (m ≫= f).
Proof.
  intros Hm Hf s Hs. apply spec_bind.
  eapply spec_mono; [by apply Hm| |done].
  intros a s' Hs'. by apply Hf.
Qed.

Lemma stable_for_each {A B} I (xs : list A) (body : A → B → Loader.M B) acc :
  (∀ x acc, stable I (body x acc)) → stable I (Loader.for_each xs body acc).
Proof.
  intros Hbody s Hs.
  eapply spec_mono;
    [apply (spec_for_each (fun _ s' => I s') (fun _ s' => I s')); [done|]
    |done|done].
  intros x acc' s' _ Hs'. by apply Hbody.
Qed.

Lemma stable_try_except {A} I (m : Loader.M A) (h : Loader.exn → Loader.M A) :
  stable I m → (∀ e, stable I (h e)) → stable I (Loader.try_except m h).
Proof.
  intros Hm Hh s Hs. apply spec_try_except.
  eapply spec_mono; [by apply Hm|done|].
  intros e s' Hs'. by apply Hh.
Qed.

Lemma stable_run {A} I (m : Loader.M A) s : stable I m → I s → I (m s).2.
Proof.
  intros Hm Hs. specialize (Hm s Hs). unfold spec in Hm.
  by destruct (m s) as [[e|a] s'].
Qed.

(** *** Every row of the session satisfies [P] *)

Lemma keeps_round_trip P : keeps P (Loader.round_trip fault).
Proof.
  intros s Hs. unfold spec, Loader.round_trip. by destruct (fault _).
Qed.

Lemma keeps_insert_rows P (rows : table) :
  Forall P rows → keeps P (Loader.insert_rows rows).
Proof.
  induction 1 as [|r rows Hr Hrows IH]; intros s Hs.
  - unfold spec, session_rows in *. simpl.
    rewrite !Forall_app in *. intuition.
  - unfold spec. cbn [Loader.insert_rows].
    destruct (negb _); [done|].
    destruct (Loader.has_show_id _ _); [done|].
    apply IH. unfold session_rows in *. simpl.
    rewrite !Forall_app in *. rewrite Forall_singleton. intuition.
Qed.

Lemma keeps_flush P : keeps P Loader.flush.
Proof.
  intros s Hs. unfold Loader.flush. apply keeps_insert_rows; [|done].
  unfold session_rows in Hs. rewrite !Forall_app in Hs. intuition.
Qed.

Lemma keeps_autoflush P :
  keeps P (if autoflush then Loader.flush else mret ()).
Proof. destruct autoflush; [apply keeps_flush|apply stable_ret]. Qed.

Lemma keeps_query_first P sid : keeps P (Loader.query_first autoflush fault sid).
Proof.
  unfold Loader.query_first.
  apply stable_bind; [apply keeps_round_trip|intros _].
  apply stable_bind; [apply keeps_autoflush|intros _]. apply stable_gets.
Qed.

Lemma keeps_add P r : P r → keeps P (Loader.add r).
Proof.
  intros Hr s Hs. unfold spec, session_rows in *. simpl.
  rewrite !Forall_app in *. rewrite Forall_singleton. intuition.
Qed.

Lemma keeps_commit P : keeps P (Loader.commit fault).
Proof.
  unfold Loader.commit.
  apply stable_bind; [apply keeps_round_trip|intros _].
  apply stable_bind; [apply keeps_flush|intros _].
  intros s Hs. unfold spec, session_rows in *. simpl.
  rewrite !Forall_app in *. intuition.
Qed.

Lemma keeps_rollback P : keeps P Loader.rollback.
Proof.
  intros s Hs. unfold spec, session_rows in *. simpl.
  rewrite !Forall_app in *. intuition.
Qed.

Lemma keeps_get_statistics P : keeps P (Loader.get_statistics autoflush fault).
Proof.
  unfold Loader.get_statistics.
  apply stable_bind; [apply keeps_round_trip|intros _].
  apply stable_bind; [apply keeps_autoflush|intros _]. apply stable_gets.
Qed.

Lemma keeps_import_row P row c :
  P (Loader.new_content row) → keeps P (import_row row c).
Proof.
  intros Hrow. unfold Loader.import_row.
  apply stable_bind; [apply keeps_query_first|intros [r|]].
  - apply stable_ret.
  - apply stable_bind; [by apply keeps_add|intros _]. apply stable_ret.
Qed.

Lemma keeps_import_frame P (df : list Loader.frame_row) :
  (∀ row, P (Loader.new_content row)) → keeps P (import_frame df).
Proof.
  intros HP. unfold Loader.import_frame, Loader.import_batches.
  apply stable_for_each. intros start c. unfold Loader.import_batch.
  apply stable_bind.
  - apply stable_for_each. intros row c'. by apply keeps_import_row.
  - intros c'. apply stable_bind; [apply keeps_commit|intros _].
    apply stable_ret.
Qed.

Lemma keeps_load P csv_path :
  (∀ row, P (Loader.new_content row)) → keeps P (load csv_path).
Proof.
  intros HP. unfold Loader.load_netflix_data_from_csv, Loader.load_body.
  apply stable_try_except.
  - destruct (read_csv csv_path) as [e|file]; [apply stable_raise|].
    apply stable_bind; [by apply keeps_import_frame|intros c].
    apply stable_bind; [apply keeps_get_statistics|intros stats].
    apply stable_ret.
  - intros e. apply stable_bind; [apply keeps_rollback|intros _].
    apply stable_raise.
Qed.

Lemma year_ok_new_content row : year_ok (Loader.new_content row).
Proof.
  unfold year_ok. cbn [Loader.new_content release_year].
  destruct (Loader.row_release_year row >? 0) eqn:E; [|done]. lia.
Qed.

End import_facts.

(** C9.  Whatever the file holds, a successful import reports 0 updated
    records. *)
Theorem updated_counter_always_zero
    (read_csv : string → Loader.exn + list Loader.csv_row)
    (to_numeric_text : string → option Z) (autoflush : bool)
    (fault : nat → bool) (csv_path : string)
    (s s' : Loader.Session) (res : Loader.load_result) :
  Loader.load_netflix_data_from_csv read_csv to_numeric_text autoflush fault
    csv_path s = (inr res, s') →
  Loader.result_updated res = 0.
Proof.
  intros Hrun.
  assert (Hs : spec (Loader.load_netflix_data_from_csv read_csv
                       to_numeric_text autoflush fault csv_path) s
                 (fun res _ => Loader.result_updated res = 0)
                 (fun _ _ => True)).
  { unfold Loader.load_netflix_data_from_csv, Loader.load_body.
    apply spec_try_except.
    destruct (read_csv csv_path) as [e|file]; [done|].
    apply spec_bind.
    eapply spec_mono; [apply import_frame_updated| |done].
    intros c s1 Hc. cbn beta. apply spec_bind. unfold spec.
    destruct (Loader.get_statistics autoflush fault s1) as [[e|st] s2]; done. }
  unfold spec in Hs. by rewrite Hrun in Hs.
Qed.

Lemma updated_counter_always_zero_witness :
  ∃ res s',
    Loader.load_netflix_data_from_csv one_file no_number false no_fault
      "netflix.csv" empty_session = (inr res, s')
    ∧ Loader.result_inserted res = 3
    ∧ Loader.result_updated res = 0.
Proof.
  eexists _, _. split; [vm_compute; reflexivity|]. split; [reflexivity|].
  eapply (updated_counter_always_zero one_file no_number false no_fault
            "netflix.csv" empty_session).
  vm_compute. reflexivity.
Defined.

(** C6.  The importer stores the release year of a row as the positive
    integer its cell holds, and as NULL when the cell is missing, does not
    parse, or holds zero or a negative number; and an import, finished or
    failed, leaves a store in which every release year is positive or NULL
    when it starts from such a store. *)
Theorem release_year_positive_or_null
    (read_csv : string → Loader.exn + list Loader.csv_row)
    (to_numeric_text : string → option Z) (autoflush : bool)
    (fault : nat → bool) :
  (∀ r : Loader.csv_row,
     release_year (Loader.new_content (Loader.prepare_row to_numeric_text r))
     = match year_of_cell to_numeric_text (Loader.csv_release_year r) with
       | Some z => if 0 <? z then Some z else None
       | None => None
       end)
  ∧ year_of_cell to_numeric_text Loader.NaN = None
  ∧ (∀ t, to_numeric_text t = None →
          year_of_cell to_numeric_text (Loader.Text t) = None)
  ∧ (∀ csv_path s,
       Forall year_ok (session_rows s) →
       Forall year_ok
         (session_rows
            (Loader.load_netflix_data_from_csv read_csv to_numeric_text
               autoflush fault csv_path s).2)).
Proof.
  split; [|split; [done|split]].
  - intros r. cbn [Loader.new_content release_year Loader.prepare_row
                   Loader.row_release_year Loader.fillna_row
                   Loader.csv_release_year].
    unfold year_of_cell.
    destruct (Loader.to_numeric _ _) as [z|]; cbn [Loader.fillna_zero default].
    + rewrite Z.gtb_ltb. done.
    + done.
  - intros t Ht. unfold year_of_cell. simpl.
    destruct (Str.truthy t); done.
  - intros csv_path s Hs.
    apply (stable_run (fun s => Forall year_ok (session_rows s))); [|done].
    apply keeps_load, year_ok_new_content.
Qed.

Lemma release_year_positive_or_null_witness :
  release_year <$>
    Loader.committed
      (Loader.load_netflix_data_from_csv one_file no_number false no_fault
         "netflix.csv" empty_session).2
  = [Some 2020; None; None]
  ∧ Forall year_ok
      (session_rows
         (Loader.load_netflix_data_from_csv one_file no_number false no_fault
            "netflix.csv" empty_session).2).
Proof.
  split; [reflexivity|].
  apply (release_year_positive_or_null one_file no_number false no_fault).
  constructor.
Defined.

(** *** Errors and rollback *)


Section rollback_facts.

Variable autoflush : bool.
Variable fault : nat → bool.

Implicit Types (s : Loader.Session) (t : table).

Lemma frozen_round_trip t : stable (committed_is t) (Loader.round_trip fault).
Proof.
  intros s Hs. unfold spec, Loader.round_trip. by destruct (fault _).
Qed.

Lemma frozen_insert_rows t (rows : table) :
  stable (committed_is t) (Loader.insert_rows rows).
Proof.
  induction rows as [|r rows IH]; intros s Hs; [done|].
  unfold spec. cbn [Loader.insert_rows].
  destruct (negb _); [done|].
  destruct (Loader.has_show_id _ _); [done|]. by apply IH.
Qed.

Lemma frozen_flush t : stable (committed_is t) Loader.flush.
Proof. intros s Hs. by apply frozen_insert_rows. Qed.

Lemma frozen_autoflush t :
  stable (committed_is t) (if autoflush then Loader.flush else mret ()).
Proof. destruct autoflush; [apply frozen_flush|apply stable_ret]. Qed.

Lemma frozen_query_first t sid :
  stable (committed_is t) (Loader.query_first autoflush fault sid).
Proof.
  unfold Loader.query_first.
  apply stable_bind; [apply frozen_round_trip|intros _].
  apply stable_bind; [apply frozen_autoflush|intros _]. apply stable_gets.
Qed.

Lemma frozen_import_row t row c :
  stable (committed_is t) (Loader.import_row autoflush fault row c).
Proof.
  unfold Loader.import_row.
  apply stable_bind; [apply frozen_query_first|intros [r|]].
  - apply stable_ret.
  - apply stable_bind; [by intros s Hs|intros _]. apply stable_ret.
Qed.

Lemma frozen_get_statistics t :
  stable (committed_is t) (Loader.get_statistics autoflush fault).
Proof.
  unfold Loader.get_statistics.
  apply stable_bind; [apply frozen_round_trip|intros _].
  apply stable_bind; [apply frozen_autoflush|intros _]. apply stable_gets.
Qed.


End rollback_facts.



(** *** Successful steps *)

Lemma for_each_cons_ok {A B} (x : A) (xs : list A)
    (body : A → B → Loader.M B) (acc acc' : B) (s s' : Loader.Session) :
  Loader.for_each (x :: xs) body acc s = (inr acc', s') →
  ∃ acc1 s1,
    body x acc s = (inr acc1, s1)
    ∧ Loader.for_each xs body acc1 s1 = (inr acc', s').
Proof.
  cbn [Loader.for_each]. unfold mbind at 1, Loader.M_bind at 1.
  destruct (body x acc s) as [[e|acc1] s1]; [done|]. eauto.
Qed.

Lemma bind_ok {A B} (m : Loader.M A) (f : A → Loader.M B)
    (s s' : Loader.Session) (b : B) :
  (m ≫= f) s = (inr b, s') →
  ∃ a s1, m s = (inr a, s1) ∧ f a s1 = (inr b, s').
Proof.
  unfold mbind, Loader.M_bind. destruct (m s) as [[e|a] s1]; [done|]. eauto.
Qed.

Section first_run.

Variable autoflush : bool.
Variable fault : nat → bool.

Implicit Types (s : Loader.Session) (c : Loader.counters)
  (row : Loader.frame_row) (df : list Loader.frame_row).

Lemma round_trip_ok s u s' :
  Loader.round_trip fault s = (inr u, s') →
  Loader.committed s' = Loader.committed s
  ∧ Loader.flushed s' = Loader.flushed s
  ∧ Loader.pending s' = Loader.pending s.
Proof.
  unfold Loader.round_trip. destruct (fault _); [done|]. by intros [= _ <-].
Qed.

Lemma insert_rows_ok (rows : table) s u s' :
  Loader.insert_rows rows s = (inr u, s') →
  Loader.committed s' = Loader.committed s
  ∧ Loader.flushed s' = Loader.flushed s ++ rows
  ∧ Loader.pending s' = [].
Proof.
  revert s. induction rows as [|r rows IH]; intros s; cbn [Loader.insert_rows].
  - intros [= _ <-]. simpl. by rewrite app_nil_r.
  - destruct (negb _); [done|].
    destruct (Loader.has_show_id _ _); [done|].
    intros (Hc & Hf & Hp)%IH. simpl in *. by rewrite Hf, <- app_assoc.
Qed.

Lemma autoflush_ok s u s' :
  (if autoflush then Loader.flush else mret ()) s = (inr u, s') →
  Loader.committed s' = Loader.committed s
  ∧ Loader.flushed s' ++ Loader.pending s'
    = Loader.flushed s ++ Loader.pending s.
Proof.
  destruct autoflush.
  - intros (Hc & Hf & Hp)%insert_rows_ok. by rewrite Hf, Hp, app_nil_r.
  - by intros [= _ <-].
Qed.

Lemma query_first_ok sid s (r : option NetflixContent) s' :
  Loader.query_first autoflush fault sid s = (inr r, s') →
  Loader.committed s' = Loader.committed s
  ∧ Loader.flushed s' ++ Loader.pending s'
    = Loader.flushed s ++ Loader.pending s
  ∧ r = List.find (fun x => bool_decide (show_id x = sid))
          (Loader.committed s' ++ Loader.flushed s').
Proof.
  unfold Loader.query_first.
  intros (u1 & s1 & (Hc1 & Hf1 & Hp1)%round_trip_ok & H)%bind_ok.
  apply bind_ok in H as (u2 & s2 & (Hc2 & Hfp2)%autoflush_ok & H).
  injection H as <- <-. rewrite Hc2, Hc1, Hfp2, Hf1, Hp1. done.
Qed.

Lemma import_row_ok row c s c' s' :
  Loader.import_row autoflush fault row c s = (inr c', s') →
  (∀ x, x ∈ session_rows s → x ∈ session_rows s')
  ∧ Loader.row_show_id row ∈ show_id <$> session_rows s'.
Proof.
  unfold Loader.import_row.
  intros (r & s1 & (Hc & Hfp & Hr)%query_first_ok & H)%bind_ok.
  assert (Hrows : session_rows s1 = session_rows s).
  { unfold session_rows. by rewrite Hc, Hfp. }
  destruct r as [x|].
  - injection H as _ <-. rewrite Hrows. split; [done|].
    symmetry in Hr. apply find_some in Hr as [Hx Hsid].
    apply bool_decide_eq_true in Hsid. rewrite <- Hrows.
    apply list_elem_of_fmap. exists x. split; [done|].
    apply list_elem_of_In in Hx. unfold session_rows.
    rewrite app_assoc. apply elem_of_app. by left.
  - injection H as _ <-. unfold session_rows in *. simpl.
    split.
    + intros x. rewrite <- Hrows, !elem_of_app. tauto.
    + apply list_elem_of_fmap. exists (Loader.new_content row).
      split; [done|]. rewrite !elem_of_app, list_elem_of_singleton. tauto.
Qed.

Lemma import_rows_ok (batch : list Loader.frame_row) c s c' s' :
  Loader.for_each batch (Loader.import_row autoflush fault) c s
  = (inr c', s') →
  (∀ x, x ∈ session_rows s → x ∈ session_rows s')
  ∧ ∀ row, row ∈ batch →
           Loader.row_show_id row ∈ show_id <$> session_rows s'.
Proof.
  revert c s. induction batch as [|row batch IH]; intros c s.
  - intros [= _ <-]. split; [done|]. intros row Hrow.
    by apply elem_of_nil in Hrow.
  - intros (c1 & s1 & (Hmono & Hrow)%import_row_ok & (Hmono' & Hrest)%IH)
      %for_each_cons_ok.
    split; [auto|]. intros row' [->|Hin]%elem_of_cons; [|auto].
    apply list_elem_of_fmap in Hrow as (x & -> & Hx).
    apply list_elem_of_fmap. eauto.
Qed.

Lemma commit_ok s u s' :
  Loader.commit fault s = (inr u, s') →
  Loader.committed s' = session_rows s ∧ clean s'.
Proof.
  unfold Loader.commit.
  intros (u1 & s1 & (Hc1 & Hf1 & Hp1)%round_trip_ok & H)%bind_ok.
  apply bind_ok in H as (u2 & s2 & (Hc2 & Hf2 & Hp2)%insert_rows_ok & H).
  injection H as _ <-. unfold clean, session_rows. simpl.
  by rewrite Hc2, Hf2, Hp2, Hc1, Hf1, Hp1.
Qed.

Lemma import_batch_ok df start c s c' s' :
  Loader.import_batch autoflush fault df start c s = (inr c', s') →
  clean s'
  ∧ (∀ x, x ∈ session_rows s → x ∈ Loader.committed s')
  ∧ ∀ row, row ∈ batch_at df start →
           Loader.row_show_id row ∈ show_id <$> Loader.committed s'.
Proof.
  unfold Loader.import_batch.
  intros (c1 & s1 & (Hmono & Hrows)%import_rows_ok & H)%bind_ok.
  apply bind_ok in H as (u & s2 & (Hc & Hclean)%commit_ok & H).
  injection H as _ <-. rewrite Hc. auto.
Qed.

Lemma import_batches_ok df (starts : list nat) c s c' s' :
  Loader.for_each starts (Loader.import_batch autoflush fault df) c s
  = (inr c', s') →
  clean s →
  clean s'
  ∧ (∀ x, x ∈ Loader.committed s → x ∈ Loader.committed s')
  ∧ ∀ start row, start ∈ starts → row ∈ batch_at df start →
                 Loader.row_show_id row ∈ show_id <$> Loader.committed s'.
Proof.
  revert c s. induction starts as [|start starts IH]; intros c s.
  - intros [= _ <-] Hs. split; [done|]. split; [done|].
    intros start row Hstart. by apply elem_of_nil in Hstart.
  - intros (c1 & s1 & (Hclean1 & Hmono1 & Hrows1)%import_batch_ok & Hrest)
      %for_each_cons_ok Hs.
    destruct (IH _ _ Hrest Hclean1) as (Hclean' & Hmono' & Hrows').
    split; [done|]. split.
    + intros x Hx. apply Hmono', Hmono1. unfold session_rows.
      apply elem_of_app. by left.
    + intros start' row [->|Hin]%elem_of_cons Hrow; [|eauto].
      apply Hrows1 in Hrow. apply list_elem_of_fmap in Hrow as (x & -> & Hx).
      apply list_elem_of_fmap. eauto.
Qed.

Lemma get_statistics_ok s (st : Stats.ContentStats) s' :
  Loader.get_statistics autoflush fault s = (inr st, s') →
  clean s →
  st = Stats.get_statistics (Loader.committed s)
  ∧ Loader.committed s' = Loader.committed s
  ∧ clean s'.
Proof.
  unfold Loader.get_statistics.
  intros (u1 & s1 & (Hc1 & Hf1 & Hp1)%round_trip_ok & H)%bind_ok [Hf Hp].
  apply bind_ok in H as (u2 & s2 & (Hc2 & Hfp2)%autoflush_ok & H).
  injection H as <- <-. rewrite Hf1, Hp1, Hf, Hp in Hfp2.
  apply app_eq_nil in Hfp2 as [Hf2 Hp2].
  rewrite Hf2, app_nil_r, Hc2, Hc1. done.
Qed.

End first_run.

(** *** The batches of a frame *)

Lemma take_min_length {A} (k : nat) (l : list A) :
  take (Nat.min k (length l)) l = take k l.
Proof.
  destruct (Nat.le_gt_cases k (length l)) as [Hk|Hk].
  - by rewrite Nat.min_l.
  - rewrite Nat.min_r by lia. rewrite !take_ge; [done|lia|lia].
Qed.

Lemma batch_at_take (df : list Loader.frame_row) (start : nat) :
  batch_at df start = take Loader.batch_size (drop start df).
Proof.
  unfold batch_at. rewrite <- (take_min_length Loader.batch_size).
  f_equal. rewrite length_drop. lia.
Qed.

Lemma chunks_concat {A} (step m : nat) (l : list A) :
  (length l ≤ m * step)%nat →
  concat ((fun k => take step (drop (k * step) l)) <$> seq 0 m) = l.
Proof.
  revert l. induction m as [|m IH]; intros l Hl.
  - destruct l; [done|simpl in Hl; lia].
  - cbn [seq fmap list_fmap concat]. rewrite <- fmap_S_seq.
    rewrite <- list_fmap_compose. cbn [Nat.mul drop].
    transitivity (take step l ++ drop step l); [|apply take_drop].
    f_equal.
    etrans; [|apply (IH (drop step l)); rewrite length_drop; lia].
    f_equal. apply list_fmap_ext. intros _ k _. cbn [compose].
    by rewrite drop_drop.
Qed.

(** The batches, in order, make up the frame. *)
Lemma batches_cover (df : list Loader.frame_row) :
  concat (batch_at df <$> Loader.range_step (length df) Loader.batch_size)
  = df.
Proof.
  unfold Loader.range_step. rewrite <- list_fmap_compose.
  etrans; [|apply (chunks_concat Loader.batch_size
                     ((length df + Loader.batch_size - 1) / Loader.batch_size))].
  - f_equal. apply list_fmap_ext. intros _ k _. cbn [compose].
    apply batch_at_take.
  - unfold Loader.batch_size.
    pose proof (Nat.div_mod_eq (length df + 100 - 1) 100).
    pose proof (Nat.mod_upper_bound (length df + 100 - 1) 100). lia.
Qed.

(** *** A run over rows that are all stored *)

Section second_run.

Variable autoflush : bool.

Implicit Types (s : Loader.Session) (c : Loader.counters)
  (row : Loader.frame_row) (df : list Loader.frame_row).

Lemma find_show_id (sid : string) (rows : table) :
  sid ∈ show_id <$> rows →
  ∃ x, List.find (fun r => bool_decide (show_id r = sid)) rows = Some x.
Proof.
  intros (x & -> & Hx)%list_elem_of_fmap.
  destruct (List.find _ rows) as [y|] eqn:E; [eauto|].
  apply list_elem_of_In in Hx. apply (find_none _ _ E x) in Hx.
  by apply bool_decide_eq_false in Hx.
Qed.

Lemma import_row_skips row c s :
  clean s →
  Loader.row_show_id row ∈ show_id <$> Loader.committed s →
  ∃ s', Loader.import_row autoflush no_fault row c s
        = (inr (skipped_more 1 c), s')
        ∧ Loader.committed s' = Loader.committed s
        ∧ clean s'.
Proof.
  destruct s as [cm fl pe op]. intros [Hf Hp] Hsid. simpl in *. subst.
  apply find_show_id in Hsid as [x Hx].
  unfold Loader.import_row, Loader.query_first, mbind, Loader.M_bind.
  unfold Loader.round_trip, no_fault.
  destruct autoflush; cbn; rewrite app_nil_r, Hx;
    (eexists; split; [reflexivity|done]).
Qed.

Lemma import_rows_skip (batch : list Loader.frame_row) c s :
  clean s →
  (∀ row, row ∈ batch →
          Loader.row_show_id row ∈ show_id <$> Loader.committed s) →
  ∃ s', Loader.for_each batch (Loader.import_row autoflush no_fault) c s
        = (inr (skipped_more (length batch) c), s')
        ∧ Loader.committed s' = Loader.committed s
        ∧ clean s'.
Proof.
  revert c s. induction batch as [|row batch IH]; intros c s Hs Hall.
  - exists s. split; [|done]. destruct c. unfold skipped_more. simpl.
    by rewrite Z.add_0_r.
  - destruct (import_row_skips row c s Hs) as (s1 & Hrow & Hc1 & Hs1).
    { apply Hall. left. }
    destruct (IH (skipped_more 1 c) s1 Hs1) as (s' & Hrest & Hc' & Hs').
    { intros row' Hrow'. rewrite Hc1. apply Hall. by right. }
    exists s'. split; [|by rewrite Hc', Hc1].
    cbn [Loader.for_each]. unfold mbind at 1, Loader.M_bind at 1.
    rewrite Hrow, Hrest. do 2 f_equal. unfold skipped_more. simpl.
    f_equal. lia.
Qed.

Lemma commit_clean s :
  clean s →
  ∃ s', Loader.commit no_fault s = (inr (), s')
        ∧ Loader.committed s' = Loader.committed s
        ∧ clean s'.
Proof.
  destruct s as [cm fl pe op]. intros [Hf Hp]. simpl in *. subst.
  eexists. split; [reflexivity|]. simpl. by rewrite app_nil_r.
Qed.

Lemma import_batches_skip df (starts : list nat) c s :
  clean s →
  (∀ start row, start ∈ starts → row ∈ batch_at df start →
                Loader.row_show_id row ∈ show_id <$> Loader.committed s) →
  ∃ s', Loader.for_each starts (Loader.import_batch autoflush no_fault df) c s
        = (inr (skipped_more (length (concat (batch_at df <$> starts))) c), s')
        ∧ Loader.committed s' = Loader.committed s
        ∧ clean s'.
Proof.
  revert c s. induction starts as [|start starts IH]; intros c s Hs Hall.
  - exists s. split; [|done]. destruct c. unfold skipped_more. simpl.
    by rewrite Z.add_0_r.
  - destruct (import_rows_skip (batch_at df start) c s Hs)
      as (s1 & Hrows & Hc1 & Hs1).
    { intros row Hrow. apply (Hall start); [left|done]. }
    destruct (commit_clean s1 Hs1) as (s2 & Hcommit & Hc2 & Hs2).
    destruct (IH (skipped_more (length (batch_at df start)) c) s2 Hs2)
      as (s' & Hrest & Hc' & Hs').
    { intros start' row Hstart' Hrow. rewrite Hc2, Hc1.
      apply (Hall start'); [by right|done]. }
    exists s'. split; [|by rewrite Hc', Hc2, Hc1].
    cbn [Loader.for_each]. unfold mbind at 1, Loader.M_bind at 1.
    unfold Loader.import_batch at 1. fold (batch_at df start).
    unfold mbind at 1, Loader.M_bind at 1. rewrite Hrows.
    unfold mbind at 1, Loader.M_bind at 1. rewrite Hcommit.
    unfold mret at 1, Loader.M_ret at 1. rewrite Hrest. do 2 f_equal.
    unfold skipped_more. cbn [Loader.records_inserted Loader.records_updated
      Loader.records_skipped fmap list_fmap concat].
    f_equal. rewrite length_app. lia.
Qed.

Lemma get_statistics_clean s :
  clean s →
  ∃ s', Loader.get_statistics autoflush no_fault s
        = (inr (Stats.get_statistics (Loader.committed s)), s')
        ∧ Loader.committed s' = Loader.committed s
        ∧ clean s'.
Proof.
  destruct s as [cm fl pe op]. intros [Hf Hp]. simpl in *. subst.
  unfold Loader.get_statistics, mbind, Loader.M_bind.
  unfold Loader.round_trip, no_fault.
  destruct autoflush; cbn -[Stats.get_statistics]; unfold Loader.gets;
    cbn [Loader.committed Loader.flushed]; rewrite app_nil_r;
    (eexists; split; [reflexivity|done]).
Qed.

End second_run.

(** C4.  After an import from a fresh session has succeeded, a second
    import of the same file on a database that answers succeeds as well,
    inserts nothing, counts every row as skipped and leaves the table, and
    with it the total record count, as the first run left it. *)
Theorem import_twice_is_idempotent
    (read_csv : string → Loader.exn + list Loader.csv_row)
    (to_numeric_text : string → option Z) (autoflush : bool)
    (fault : nat → bool) (csv_path : string)
    (s s1 : Loader.Session) (res1 : Loader.load_result) :
  clean s →
  Loader.load_netflix_data_from_csv read_csv to_numeric_text autoflush fault
    csv_path s = (inr res1, s1) →
  ∃ res2 s2,
    Loader.load_netflix_data_from_csv read_csv to_numeric_text autoflush
      no_fault csv_path s1 = (inr res2, s2)
    ∧ Loader.committed s2 = Loader.committed s1
    ∧ Loader.statistics res2 = Loader.statistics res1
    ∧ Stats.total_content (Loader.statistics res2)
      = Z.of_nat (length (Loader.committed s1))
    ∧ Loader.result_inserted res2 = 0
    ∧ Loader.result_skipped res2 = Loader.records_processed res2
    ∧ Loader.records_processed res2 = Loader.records_processed res1.
Proof.
  intros Hs. unfold Loader.load_netflix_data_from_csv, Loader.try_except.
  destruct (Loader.load_body _ _ _ fault _ s) as [[e|res] sr] eqn:Hbody;
    [done|].
  intros [= -> ->]. unfold Loader.load_body in *.
  destruct (read_csv csv_path) as [e|file]; [done|]. cbn zeta in *.
  set (df := Loader.prepare_row to_numeric_text <$> file) in *.
  apply bind_ok in Hbody as (c & sb & Hframe & Hbody).
  apply bind_ok in Hbody as (st & s1' & Hstats & Hret).
  injection Hret as <- <-.
  destruct (import_batches_ok _ _ _ _ _ _ _ _ Hframe Hs)
    as (Hsb & _ & Hrows).
  destruct (get_statistics_ok _ _ _ _ _ Hstats Hsb) as (-> & Hc1 & Hs1).
  destruct (import_batches_skip autoflush df
              (Loader.range_step (length df) Loader.batch_size)
              {| Loader.records_inserted := 0; Loader.records_updated := 0;
                 Loader.records_skipped := 0 |} s1' Hs1)
    as (s2a & Hframe2 & Hc2a & Hs2a).
  { intros start row Hstart Hrow. rewrite Hc1. eauto. }
  destruct (get_statistics_clean autoflush s2a Hs2a)
    as (s2 & Hstats2 & Hc2 & Hs2).
  rewrite batches_cover in Hframe2.
  unfold Loader.import_frame, Loader.import_batches.
  unfold mbind at 1, Loader.M_bind at 1. rewrite Hframe2.
  unfold mbind at 1, Loader.M_bind at 1. rewrite Hstats2.
  eexists _, s2. split; [reflexivity|].
  cbn [Loader.statistics Loader.result_inserted Loader.result_skipped
       Loader.records_processed skipped_more Loader.records_inserted
       Loader.records_skipped].
  rewrite Hc2, Hc2a, Hc1. split; [done|]. split; [done|].
  split; [done|]. split; [done|]. split; [lia|done].
Qed.

Lemma import_twice_is_idempotent_witness :
  ∃ res1 s1 res2 s2,
    Loader.load_netflix_data_from_csv one_file no_number false no_fault
      "netflix.csv" empty_session = (inr res1, s1)
    ∧ Loader.load_netflix_data_from_csv one_file no_number false no_fault
        "netflix.csv" s1 = (inr res2, s2)
    ∧ Loader.result_inserted res1 = 3
    ∧ Loader.result_skipped res1 = 0
    ∧ Loader.result_inserted res2 = 0
    ∧ Loader.result_skipped res2 = 3
    ∧ Stats.total_content (Loader.statistics res2) = 3.
Proof.
  destruct (Loader.load_netflix_data_from_csv one_file no_number false
              no_fault "netflix.csv" empty_session) as [r1 s1] eqn:Hrun1.
  assert (Hr1 : r1 = (Loader.load_netflix_data_from_csv one_file no_number
                        false no_fault "netflix.csv" empty_session).1)
    by (by rewrite Hrun1).
  assert (Hs1 : s1 = (Loader.load_netflix_data_from_csv one_file no_number
                        false no_fault "netflix.csv" empty_session).2)
    by (by rewrite Hrun1).
  vm_compute in Hr1. subst r1.
  destruct (import_twice_is_idempotent one_file no_number false no_fault
              "netflix.csv" empty_session s1 _ (conj eq_refl eq_refl) Hrun1)
    as (res2 & s2 & Hrun2 & _ & Hstat & _ & Hins & Hskip & Hproc).
  eexists _, s1, res2, s2. split; [reflexivity|]. split; [exact Hrun2|].
  split; [reflexivity|]. split; [reflexivity|]. split; [exact Hins|].
  split; [by rewrite Hskip, Hproc|]. by rewrite Hstat.
Defined.

(** ** Further properties of the facets and the statistics *)

Section more_facet_facts.

Implicit Types (s t g : string) (c : ascii) (db : table).

Lemma mem_char_lstrip c s :
  mem_char c (Str.lstrip s) = true → mem_char c s = true.
Proof.
  induction s as [|d s IH]; [done|]. cbn [Str.lstrip].
  destruct (Str.isspace d); [|done].
  intros H%IH. cbn [mem_char]. rewrite H. apply orb_true_r.
Qed.

Lemma mem_char_rstrip c s :
  mem_char c (Str.rstrip s) = true → mem_char c s = true.
Proof.
  induction s as [|d s IH]; [done|]. cbn [Str.rstrip mem_char].
  destruct (Str.rstrip s) as [|e u] eqn:E.
  - destruct (Str.isspace d); [done|]. cbn [mem_char].
    rewrite orb_false_r. intros ->. done.
  - cbn [mem_char] in *. intros [->|H]%orb_true_iff; [done|].
    rewrite IH by done. apply orb_true_r.
Qed.

Lemma mem_char_split c s g :
  g ∈ Str.split c s → mem_char c g = false.
Proof.
  revert g. induction s as [|d s IH]; intros g; cbn [Str.split].
  - by intros ->%list_elem_of_singleton.
  - destruct (Ascii.eqb d c) eqn:E.
    + intros [->|H]%elem_of_cons; [done|auto].
    + destruct (Str.split c s) as [|u us] eqn:Es.
      * intros ->%list_elem_of_singleton. cbn [mem_char].
        by rewrite Ascii.eqb_sym, E.
      * intros [->|H]%elem_of_cons.
        -- cbn [mem_char]. rewrite Ascii.eqb_sym, E. apply IH. left.
        -- apply IH. by right.
Qed.

Lemma rstrip_cons d s e u :
  Str.rstrip s = String e u → Str.rstrip (String d s) = String d (String e u).
Proof. intros H. cbn [Str.rstrip]. by rewrite H. Qed.

Lemma rstrip_idem s : Str.rstrip (Str.rstrip s) = Str.rstrip s.
Proof.
  induction s as [|d s IH]; [done|]. cbn [Str.rstrip].
  destruct (Str.rstrip s) as [|e u] eqn:E.
  - destruct (Str.isspace d) eqn:Ed; [done|]. cbn [Str.rstrip]. by rewrite Ed.
  - by apply rstrip_cons.
Qed.

Lemma rstrip_head d s :
  Str.isspace d = false → ∃ u, Str.rstrip (String d s) = String d u.
Proof.
  intros Hd. cbn [Str.rstrip]. destruct (Str.rstrip s); rewrite ?Hd; eauto.
Qed.

Lemma lstrip_head s :
  Str.lstrip s = "" ∨ ∃ d u, Str.lstrip s = String d u ∧ Str.isspace d = false.
Proof.
  induction s as [|d s IH]; [by left|]. cbn [Str.lstrip].
  destruct (Str.isspace d) eqn:E; [done|]. right. eauto.
Qed.

Lemma strip_idem s : Str.strip (Str.strip s) = Str.strip s.
Proof.
  unfold Str.strip. destruct (lstrip_head s) as [->|(d & u & -> & Hd)]; [done|].
  destruct (rstrip_head d u Hd) as [v Hv]. rewrite Hv.
  cbn [Str.lstrip]. rewrite Hd, <- Hv. apply rstrip_idem.
Qed.

End more_facet_facts.

(** X1.  A value of the category or country facet is already trimmed and
    holds no comma. *)
Theorem facet_values_trimmed_without_comma (db : table) (t : string) :
  t ∈ Facets.get_all_categories db ∨ t ∈ Facets.get_all_countries db →
  Str.strip t = t ∧ mem_char "," t = false.
Proof.
  assert (Htok : ∀ s, t ∈ Str.tokens s →
                      Str.strip t = t ∧ mem_char "," t = false).
  { intros s (g & -> & Hg)%list_elem_of_fmap. split; [apply strip_idem|].
    destruct (mem_char "," (Str.strip g)) eqn:E; [|done].
    unfold Str.strip in E. apply mem_char_rstrip, mem_char_lstrip in E.
    by rewrite (mem_char_split _ _ _ Hg) in E. }
  intros [Ht|Ht].
  - unfold Facets.get_all_categories in Ht.
    apply elem_of_sorted, elem_of_elements, elem_of_foldl_add_row in Ht
      as [Ht|(s & _ & _ & Ht)]; [by apply elem_of_empty in Ht|eauto].
  - unfold Facets.get_all_countries in Ht.
    apply elem_of_sorted, elem_of_elements, elem_of_foldl_add_row in Ht
      as [Ht|(s & _ & _ & Ht)]; [by apply elem_of_empty in Ht|eauto].
Qed.

Lemma facet_values_trimmed_without_comma_witness :
  Str.strip "Kids" = "Kids" ∧ mem_char "," "Kids" = false.
Proof.
  apply (facet_values_trimmed_without_comma
           [mk "s1" None None None None None (Some " Dramas ,Kids ")]).
  left. vm_compute. right. left.
Defined.

Section more_stats_facts.

Implicit Types (db : table) (d : Stats.dict) (k t : string) (n : Z)
  (l : list string).

Lemma elem_of_rated db t :
  t ∈ rated db ↔ t ≠ "" ∧ ∃ r, r ∈ db ∧ rating r = Some t.
Proof.
  unfold rated. rewrite list_elem_of_omap. split.
  - intros (o & Ho & Hid). cbn in Hid. subst o.
    by apply elem_of_ne_empty_column in Ho.
  - intros Ht. exists (Some t). split; [|done].
    by apply elem_of_ne_empty_column.
Qed.

Lemma occurrences_rated db k :
  k ≠ "" → occurrences k (rated db) = selected (test_eq rating k) db.
Proof.
  intros Hk. unfold rated, selected, occurrences, test_eq. f_equal.
  induction db as [|r db IH]; [done|]. cbn [map List.filter].
  destruct (rating r) as [s|] eqn:Er; cbn [Sql.ne_empty Sql.eq_str].
  - destruct (Str.truthy s) eqn:Es.
    + cbn [omap list_omap id]. rewrite filter_cons.
      destruct (decide (k = s)) as [->|Hne].
      * rewrite bool_decide_eq_true_2 by done. cbn [length]. by rewrite <- IH.
      * rewrite bool_decide_eq_false_2 by congruence. exact IH.
    + rewrite bool_decide_eq_false_2; [exact IH|].
      intros ->. apply truthy_ne in Hk. congruence.
  - exact IH.
Qed.

Lemma length_rated db :
  Z.of_nat (length (rated db))
  = selected (fun r => Sql.ne_empty (rating r)) db.
Proof.
  unfold rated, selected. f_equal.
  induction db as [|r db IH]; [done|]. cbn [map List.filter].
  destruct (rating r) as [s|]; cbn [Sql.ne_empty]; [|exact IH].
  destruct (Str.truthy s); [|exact IH].
  cbn [omap list_omap id length]. by rewrite <- IH.
Qed.

Lemma NoDup_omap_id (xs : list (option string)) :
  NoDup xs → NoDup (omap id xs).
Proof.
  induction 1 as [|o xs Ho Hxs IH]; [constructor|].
  destruct o as [s|]; cbn [omap list_omap id]; [|exact IH].
  constructor; [|exact IH]. rewrite list_elem_of_omap.
  intros (o & Hin & Hid). cbn in Hid. by subst o.
Qed.

Lemma elem_of_counts_inv d0 d l k n :
  counted d0 d l → NoDup d0.*1 → (k, n) ∈ d → n = Stats.get k d0 + occurrences k l.
Proof.
  intros [Hg _ _ Hn _] Hd0 Hin.
  by rewrite <- (get_elem_of d k n (Hn Hd0) Hin), Hg.
Qed.

Lemma elem_of_counts l k :
  k ∈ l → 0 < occurrences k l.
Proof.
  intros Hk. unfold occurrences.
  assert (k ∈ filter (k =.) l) as Hin by by apply list_elem_of_filter.
  destruct (filter (k =.) l); [by apply elem_of_nil in Hin|]. simpl. lia.
Qed.

(** The dictionary a run of increments builds, key by key. *)
Lemma counts_entries l k n :
  (k, n) ∈ foldl Stats.incr [] l ↔ k ∈ l ∧ n = occurrences k l.
Proof.
  pose proof (counted_foldl_incr l []) as Hc.
  assert (Hnd : NoDup (foldl Stats.incr [] l).*1).
  { apply (counted_NoDup _ _ _ Hc). constructor. }
  split.
  - intros Hin. split.
    + assert (Hkey : k ∈ (foldl Stats.incr [] l).*1)
        by (apply list_elem_of_fmap; by exists (k, n)).
      apply (counted_keys _ _ _ Hc) in Hkey as [Hk|Hk]; [|done].
      by apply elem_of_nil in Hk.
    + rewrite (elem_of_counts_inv _ _ _ _ _ Hc (NoDup_nil_2) Hin). simpl. lia.
  - intros [Hk ->].
    assert (Hkey : k ∈ (foldl Stats.incr [] l).*1).
    { apply (counted_keys _ _ _ Hc). by right. }
    apply list_elem_of_fmap in Hkey as ([k' n'] & -> & Hin).
    rewrite (elem_of_counts_inv _ _ _ _ _ Hc (NoDup_nil_2) Hin) in Hin.
    simpl in Hin. by rewrite Z.add_0_l in Hin.
Qed.

End more_stats_facts.

Lemma get_all_ratings_spec (db : table) :
  (∀ t, t ∈ Facets.get_all_ratings db
        ↔ t ≠ "" ∧ ∃ r, r ∈ db ∧ rating r = Some t)
  ∧ StronglySorted String.le (Facets.get_all_ratings db)
  ∧ NoDup (Facets.get_all_ratings db).
Proof.
  set (xs := remove_dups (List.filter Sql.ne_empty (map rating db))).
  assert (Hxs : ∀ o, o ∈ xs ↔ ∃ t, o = Some t ∧ t ≠ ""
                                  ∧ ∃ r, r ∈ db ∧ rating r = Some t).
  { intros o. unfold xs. rewrite elem_of_remove_dups. split.
    - intros Ho. destruct o as [t|].
      + exists t. split; [done|]. by apply elem_of_ne_empty_column.
      + apply list_elem_of_In, filter_In in Ho as [_ Ho]. discriminate Ho.
    - intros (t & -> & Ht). by apply elem_of_ne_empty_column. }
  assert (Heq : omap (fun r : option string =>
                        match r with
                        | Some s => if Str.truthy s then Some s else None
                        | None => None
                        end) xs = omap id xs).
  { assert (Hall : Forall (fun o => ∃ t, o = Some t ∧ t ≠ "") xs).
    { apply Forall_forall. intros o (t & ? & ? & _)%Hxs. eauto. }
    clear Hxs. induction Hall as [|o ys (t & -> & Ht%truthy_ne) _ IH]; [done|].
    cbn [omap list_omap]. rewrite Ht. cbn [id]. by rewrite IH. }
  split; [|split];
    unfold Facets.get_all_ratings; fold xs; rewrite Heq;
    [|apply sorted_StronglySorted|].
  - intros t. rewrite elem_of_sorted, list_elem_of_omap. split.
    + intros (o & (t' & -> & Ht & Hr)%Hxs & Hid). cbn in Hid.
      injection Hid as <-. done.
    + intros (Ht & Hr). exists (Some t). split; [|done]. apply Hxs. eauto.
  - apply sorted_NoDup, NoDup_omap_id, NoDup_remove_dups.
Qed.


(** X2.  The ratings facet, from the router and from [get_unique_values],
    lists exactly the ratings that some record holds and that are not
    empty, in ascending order, each once. *)
Theorem ratings_facet_exact (db : table) :
  (∀ t, t ∈ Facets.get_all_ratings db
        ↔ t ≠ "" ∧ ∃ r, r ∈ db ∧ rating r = Some t)
  ∧ StronglySorted String.le (Facets.get_all_ratings db)
  ∧ NoDup (Facets.get_all_ratings db)
  ∧ Facets.ratings (Facets.get_unique_values db) = Facets.get_all_ratings db.
Proof.
  destruct (get_all_ratings_spec db) as (Hmem & Hsorted & Hnd).
  split; [exact Hmem|]. split; [exact Hsorted|]. split; [exact Hnd|].
  reflexivity.
Qed.

Lemma ratings_facet_exact_witness :
  Facets.get_all_ratings
    [mk "s1" None None None (Some "R") None None;
     mk "s2" None None None (Some "") None None;
     mk "s3" None None None None None None;
     mk "s4" None None None (Some "PG") None None;
     mk "s5" None None None (Some "R") None None]
  = ["PG"; "R"]
  ∧ "R" ∈ Facets.get_all_ratings
            [mk "s1" None None None (Some "R") None None].
Proof.
  split; [reflexivity|].
  apply (ratings_facet_exact [mk "s1" None None None (Some "R") None None]).
  split; [done|]. eexists. split; [left|reflexivity].
Defined.

(** X3.  A rating is listed by the facet exactly when it is not empty and
    the by-rating view of it, from offset 0 with a limit of at least 1 that
    the database takes, returns a record. *)
Theorem listed_rating_selects_records (db : table) (t : string) (L : Z) :
  1 ≤ L ≤ Sql.bigint_max →
  (t ∈ Facets.get_all_ratings db
   ↔ t ≠ "" ∧ ∃ r rows,
       Router.get_content_by_rating t L 0 db = Some (r :: rows)).
Proof.
  intros HL. rewrite (proj1 (get_all_ratings_spec db) t).
  assert (Hpage : Router.get_content_by_rating t L 0 db
                  = Some (take (Z.to_nat L)
                            (List.filter (fun r => Sql.eq_str t (rating r)) db))).
  { unfold Router.get_content_by_rating, Router.filter_eq_str.
    cbn [mbind option_bind]. rewrite page_accepted; [done| |lia].
    unfold Sql.bigint_max. lia. }
  rewrite Hpage. clear Hpage.
  split; intros [Ht H]; (split; [done|]).
  - destruct H as (r & Hr & Hrt).
    assert (Hin : r ∈ List.filter (fun r => Sql.eq_str t (rating r)) db).
    { apply list_elem_of_In, filter_In. split; [by apply list_elem_of_In|].
      rewrite Hrt. cbn. by apply bool_decide_eq_true. }
    destruct (List.filter _ db) as [|r0 rows]; [by apply elem_of_nil in Hin|].
    destruct (Z.to_nat L) as [|n] eqn:En; [lia|]. cbn [take]. eauto.
  - destruct H as (r & rows & [= Hrows]).
    assert (Hin : r ∈ List.filter (fun r => Sql.eq_str t (rating r)) db).
    { apply (subseteq_take (Z.to_nat L)). rewrite Hrows. left. }
    apply list_elem_of_In, filter_In in Hin as [Hin Hrt].
    exists r. split; [by apply list_elem_of_In|].
    unfold Sql.eq_str in Hrt. destruct (rating r) as [s|]; [|done].
    by apply bool_decide_eq_true in Hrt as ->.
Qed.

Lemma listed_rating_selects_records_witness :
  ∃ r rows,
    Router.get_content_by_rating "R" 20 0
      [mk "s1" None None None (Some "PG") None None;
       mk "s2" None None None (Some "R") None None]
    = Some (r :: rows).
Proof.
  apply (listed_rating_selects_records
           [mk "s1" None None None (Some "PG") None None;
            mk "s2" None None None (Some "R") None None] "R" 20);
    [by vm_compute|].
  vm_compute. right. left.
Defined.

Section more_ranking_facts.

Implicit Types (db : table) (d : Stats.dict) (k t : string) (n : Z)
  (l : list string) (x : string * Z).

Lemma selected_nonneg (test : NetflixContent → bool) db : 0 ≤ selected test db.
Proof. unfold selected. lia. Qed.

Lemma selected_disjoint (f g : NetflixContent → bool) db :
  (∀ r, f r = true → g r = false) →
  selected f db + selected g db ≤ Z.of_nat (length db)
  ∧ (selected f db + selected g db = Z.of_nat (length db)
     ↔ ∀ r, r ∈ db → f r = true ∨ g r = true).
Proof.
  intros Hfg. unfold selected. induction db as [|r db [IH1 IH2]].
  - split; [done|]. split; [|done]. intros _ r Hr. by apply elem_of_nil in Hr.
  - cbn [List.filter]. pose proof (Hfg r) as Hr.
    destruct (f r) eqn:Ef, (g r) eqn:Eg; try (by discriminate Hr);
      cbn [length]; (split; [lia|]); rewrite ?Nat2Z.inj_succ; split.
    + intros H r' [->|Hin]%elem_of_cons; [auto|]. apply IH2; [lia|done].
    + intros H. assert (∀ r', r' ∈ db → f r' = true ∨ g r' = true) as H'
        by (intros; apply H; by right). apply IH2 in H'. lia.
    + intros H r' [->|Hin]%elem_of_cons; [auto|]. apply IH2; [lia|done].
    + intros H. assert (∀ r', r' ∈ db → f r' = true ∨ g r' = true) as H'
        by (intros; apply H; by right). apply IH2 in H'. lia.
    + intros H. lia.
    + intros H. destruct (H r) as [?|?]; [left|congruence|congruence].
Qed.

Lemma with_count_insert_desc n x d :
  with_count n (Stats.insert_desc x d) = with_count n (x :: d).
Proof.
  unfold with_count, Stats.dict. induction d as [|y d IH]; [done|].
  cbn [Stats.insert_desc]. destruct (x.2 <? y.2) eqn:E; [|done].
  apply Z.ltb_lt in E.
  rewrite !(filter_cons (fun kv : string * Z => kv.2 = n)), IH,
    !(filter_cons (fun kv : string * Z => kv.2 = n)).
  destruct (decide (y.2 = n)), (decide (x.2 = n)); try done. lia.
Qed.

(** The sort of the rankings is stable. *)
Lemma with_count_sorted_desc n d :
  with_count n (Stats.sorted_desc d) = with_count n d.
Proof.
  induction d as [|x d IH]; [done|]. cbn [Stats.sorted_desc foldr].
  rewrite with_count_insert_desc. fold (Stats.sorted_desc d).
  unfold with_count, Stats.dict in *.
  rewrite !(filter_cons (fun kv : string * Z => kv.2 = n)).
  by rewrite IH.
Qed.

Lemma keys_foldl_incr l d :
  (foldl Stats.incr d l).*1
  = d.*1 ++ filter (fun k => k ∉ d.*1) (first_seen l).
Proof.
  revert d. induction l as [|x l IH]; intros d.
  - cbn [foldl first_seen]. by rewrite filter_nil, app_nil_r.
  - cbn [foldl first_seen]. rewrite IH. unfold Stats.incr. rewrite keys_set.
    destruct (decide (x ∈ d.*1)) as [Hx|Hx].
    + rewrite filter_cons_False by tauto. f_equal.
      rewrite list_filter_filter. apply list_filter_iff.
      intros k. split; [|tauto]. intros Hk. split; [done|]. by intros ->.
    + rewrite filter_cons_True by done. rewrite <- app_assoc. cbn [app].
      do 2 f_equal. rewrite list_filter_filter. apply list_filter_iff.
      intros k. rewrite elem_of_app, list_elem_of_singleton. tauto.
Qed.

Lemma dict_entries d :
  NoDup d.*1 → d = (fun k => (k, Stats.get k d)) <$> d.*1.
Proof.
  induction d as [|[k n] d IH]; [done|]. intros [Hk Hd]%NoDup_cons.
  cbn [fmap list_fmap fst Stats.get]. rewrite decide_True by done. f_equal.
  rewrite (IH Hd) at 1. apply list_fmap_ext. intros i k' Hk'.
  rewrite decide_False; [done|]. intros ->. apply Hk.
  by eapply list_elem_of_lookup_2.
Qed.

Lemma filter_all (P : string → Prop) `{∀ k, Decision (P k)} l :
  (∀ k, P k) → filter P l = l.
Proof.
  intros HP. induction l as [|k l IH]; [done|].
  by rewrite filter_cons_True, IH.
Qed.

(** The dictionary of counts, entry by entry. *)
Lemma counts_explicit l :
  foldl Stats.incr [] l = (fun k => (k, occurrences k l)) <$> first_seen l.
Proof.
  pose proof (counted_foldl_incr l []) as Hc.
  rewrite (dict_entries (foldl Stats.incr [] l))
    by (apply (counted_NoDup _ _ _ Hc); constructor).
  rewrite keys_foldl_incr. cbn [fmap list_fmap app].
  rewrite filter_all by (intros; apply not_elem_of_nil).
  apply list_fmap_ext. intros _ k _.
  rewrite (counted_get _ _ _ Hc). simpl. by rewrite Z.add_0_l.
Qed.

Lemma elem_of_first_seen l k : k ∈ first_seen l ↔ k ∈ l.
Proof.
  induction l as [|x l IH]; [done|]. cbn [first_seen].
  rewrite !elem_of_cons, list_elem_of_filter, IH.
  destruct (decide (k = x)); tauto.
Qed.

Lemma NoDup_first_seen l : NoDup (first_seen l).
Proof.
  induction l as [|x l IH]; [constructor|]. cbn [first_seen].
  constructor; [|by apply NoDup_filter].
  rewrite list_elem_of_filter. tauto.
Qed.

End more_ranking_facts.

Lemma occurrences_pos_inv (k : string) (l : list string) :
  0 < occurrences k l → k ∈ l.
Proof.
  unfold occurrences. intros H.
  destruct (filter (k =.) l) as [|k' l'] eqn:E; [simpl in H; lia|].
  assert (Hin : k' ∈ filter (k =.) l) by (rewrite E; left).
  by apply list_elem_of_filter in Hin as [<- ?].
Qed.

Lemma with_count_take_prefix (n : Z) (m : nat) (d : Stats.dict) :
  with_count n (take m d) `prefix_of` with_count n d.
Proof.
  unfold with_count, Stats.dict. rewrite <- (take_drop m d) at 2.
  rewrite filter_app. by apply prefix_app_r.
Qed.

(** X4.  In the statistics, [total_content] is the number of records;
    [movies] and [tv_shows] count the records whose type is exactly "Movie"
    and "TV Show", so together they never exceed the total and reach it
    exactly when every record has one of the two types. *)
Theorem statistics_counts (db : table) :
  Stats.total_content (Stats.get_statistics db) = Z.of_nat (length db)
  ∧ Stats.movies (Stats.get_statistics db)
    = selected (test_eq type "Movie") db
  ∧ Stats.tv_shows (Stats.get_statistics db)
    = selected (test_eq type "TV Show") db
  ∧ Stats.movies (Stats.get_statistics db)
    + Stats.tv_shows (Stats.get_statistics db)
    ≤ Stats.total_content (Stats.get_statistics db)
  ∧ (Stats.movies (Stats.get_statistics db)
     + Stats.tv_shows (Stats.get_statistics db)
     = Stats.total_content (Stats.get_statistics db)
     ↔ ∀ r, r ∈ db → type r = Some "Movie" ∨ type r = Some "TV Show").
Proof.
  split; [done|]. split; [done|]. split; [done|].
  change (Stats.movies (Stats.get_statistics db))
    with (selected (test_eq type "Movie") db).
  change (Stats.tv_shows (Stats.get_statistics db))
    with (selected (test_eq type "TV Show") db).
  change (Stats.total_content (Stats.get_statistics db))
    with (Z.of_nat (length db)).
  destruct (selected_disjoint (test_eq type "Movie") (test_eq type "TV Show") db)
    as [Hle Heq].
  { intros r. unfold test_eq, Sql.eq_str. destruct (type r) as [s|]; [|done].
    intros ->%bool_decide_eq_true. done. }
  split; [done|]. rewrite Heq. apply forall_proper. intros r.
  unfold test_eq, Sql.eq_str. destruct (type r) as [s|].
  - rewrite !bool_decide_eq_true. split; intros H Hr;
      (destruct (H Hr) as [?|?]; [left|right]; congruence).
  - split; intros H Hr; destruct (H Hr); done.
Qed.

Lemma statistics_counts_witness :
  Stats.movies
    (Stats.get_statistics
       [mk "s1" (Some "Movie") None None None None None;
        mk "s2" (Some "movie") None None None None None;
        mk "s3" (Some "TV Show") None None None None None])
  = 1
  ∧ Stats.movies
      (Stats.get_statistics [mk "s1" (Some "Movie") None None None None None])
    + Stats.tv_shows
        (Stats.get_statistics [mk "s1" (Some "Movie") None None None None None])
    = Stats.total_content
        (Stats.get_statistics [mk "s1" (Some "Movie") None None None None None]).
Proof.
  split; [reflexivity|].
  apply (statistics_counts [mk "s1" (Some "Movie") None None None None None]).
  intros r ->%list_elem_of_singleton. by left.
Defined.

(** X5.  [by_rating] lists every non-empty rating of the table once, with
    the number of records that hold it, by count descending; it is not cut,
    and its counts add up to the number of records with a non-empty
    rating. *)
Theorem by_rating_ranking (db : table) :
  (∀ k n, (k, n) ∈ Stats.by_rating (Stats.get_statistics db)
          ↔ k ≠ "" ∧ 0 < n ∧ n = selected (test_eq rating k) db)
  ∧ NoDup (Stats.by_rating (Stats.get_statistics db)).*1
  ∧ StronglySorted count_desc (Stats.by_rating (Stats.get_statistics db))
  ∧ total (Stats.by_rating (Stats.get_statistics db))
    = selected (fun r => Sql.ne_empty (rating r)) db.
Proof.
  change (Stats.by_rating (Stats.get_statistics db))
    with (Stats.sorted_desc (foldl Stats.incr [] (rated db))).
  pose proof (counted_foldl_incr (rated db) []) as Hc.
  split; [|split; [|split]].
  - intros k n. rewrite sorted_desc_Permutation, counts_entries. split.
    + intros [Hk ->]. pose proof (elem_of_counts _ _ Hk) as Hpos.
      apply elem_of_rated in Hk as [Hk _].
      by rewrite <- occurrences_rated.
    + intros (Hk & Hpos & ->). rewrite <- occurrences_rated in * by done.
      split; [by apply occurrences_pos_inv|done].
  - rewrite sorted_desc_Permutation.
    apply (counted_NoDup _ _ _ Hc). constructor.
  - apply sorted_desc_sorted.
  - rewrite (total_Permutation _ _ (sorted_desc_Permutation _)).
    rewrite (counted_total _ _ _ Hc). simpl. by rewrite length_rated.
Qed.

Lemma by_rating_ranking_witness :
  Stats.by_rating
    (Stats.get_statistics
       [mk "s1" None None None (Some "R") None None;
        mk "s2" None None None (Some "PG") None None;
        mk "s3" None None None (Some "") None None;
        mk "s4" None None None (Some "PG") None None])
  = [("PG", 2); ("R", 1)]
  ∧ "PG" ≠ "".
Proof.
  split; [reflexivity|].
  destruct (by_rating_ranking
              [mk "s2" None None None (Some "PG") None None]) as [H _].
  apply (proj1 (H "PG" 1)). vm_compute. left.
Defined.

(** X6.  [by_category] lists no token twice and only tokens of the table;
    when the table holds at most 20 distinct tokens it lists every one of
    them with its number of occurrences. *)
Theorem by_category_keys (db : table) :
  NoDup (Stats.by_category (Stats.get_statistics db)).*1
  ∧ (∀ k n, (k, n) ∈ Stats.by_category (Stats.get_statistics db) →
            k ∈ category_tokens db)
  ∧ ((length (remove_dups (category_tokens db)) ≤ 20)%nat →
     ∀ t, t ∈ category_tokens db →
          (t, occurrences t (category_tokens db))
          ∈ Stats.by_category (Stats.get_statistics db)).
Proof.
  unfold Stats.get_statistics. cbn [Stats.by_category].
  rewrite foldl_count_row, genres_query_tokens.
  set (toks := category_tokens db).
  pose proof (counted_foldl_incr toks []) as Hc.
  assert (Hnd : NoDup (foldl Stats.incr [] toks).*1)
    by (apply (counted_NoDup _ _ _ Hc); constructor).
  split; [|split].
  - apply (sublist_NoDup _ (Stats.sorted_desc (foldl Stats.incr [] toks)).*1).
    + by rewrite sorted_desc_Permutation.
    + apply fmap_sublist, sublist_take.
  - intros k n Hin%subseteq_take. rewrite sorted_desc_Permutation in Hin.
    by apply counts_entries in Hin as [? _].
  - intros Hle t Ht. rewrite take_ge.
    + rewrite sorted_desc_Permutation. by apply counts_entries.
    + rewrite sorted_desc_Permutation, <- (length_fmap fst).
      assert (Hperm : (foldl Stats.incr [] toks).*1 ≡ₚ remove_dups toks).
      { apply NoDup_Permutation; [done|apply NoDup_remove_dups|].
        intros k. rewrite (counted_keys _ _ _ Hc), elem_of_remove_dups,
          elem_of_nil. tauto. }
      by rewrite Hperm.
Qed.

Lemma by_category_keys_witness :
  ("Kids", 1)
  ∈ Stats.by_category
      (Stats.get_statistics
         [mk "s1" None None None None None (Some "Dramas, Kids");
          mk "s2" None None None None None (Some "Dramas")]).
Proof.
  apply (by_category_keys
           [mk "s1" None None None None None (Some "Dramas, Kids");
            mk "s2" None None None None None (Some "Dramas")]).
  - vm_compute. lia.
  - vm_compute. right. left.
Defined.

(** X7.  In [by_category], entries of equal count keep the order in which
    their tokens first occur in the rows read: the dictionary keeps
    insertion order and [sorted] is stable.  As the list is cut at 20, the
    entries of one count are the first of those of the uncut dictionary. *)
Theorem ranking_ties_in_first_seen_order (db : table) (n : Z) :
  with_count n (Stats.by_category (Stats.get_statistics db))
  `prefix_of`
    with_count n ((fun k => (k, occurrences k (category_tokens db)))
                    <$> first_seen (category_tokens db)).
Proof.
  unfold Stats.get_statistics. cbn [Stats.by_category].
  rewrite foldl_count_row, genres_query_tokens, counts_explicit.
  rewrite <- (with_count_sorted_desc n (_ <$> _)).
  apply with_count_take_prefix.
Qed.

(** ** Further properties of the query layer *)

Section more_query_facts.

Implicit Types (db query : table) (r : NetflixContent) (q v w s t : string)
  (p : list Sql.pat) (L O : Z).

Lemma slice_app O L L' query :
  0 ≤ O → 0 ≤ L → 0 ≤ L' →
  Sql.slice O L query ++ Sql.slice (O + L) L' query
  = Sql.slice O (L + L') query.
Proof.
  intros HO HL HL'. unfold Sql.slice.
  rewrite !Z2Nat.inj_add by done. rewrite <- drop_drop.
  apply take_take_drop.
Qed.

Lemma page_app O L L' query :
  0 ≤ O → 0 ≤ L → 0 ≤ L' →
  O + L ≤ Sql.bigint_max → L + L' ≤ Sql.bigint_max →
  ∃ a b,
    Sql.page O L query = Some a
    ∧ Sql.page (O + L) L' query = Some b
    ∧ Sql.page O (L + L') query = Some (a ++ b).
Proof.
  intros HO HL HL' HOL HLL. eexists _, _.
  rewrite !page_accepted by lia. by rewrite slice_app.
Qed.

Lemma slice_sublist O L query : Sql.slice O L query `sublist_of` query.
Proof.
  unfold Sql.slice. etrans; [apply sublist_take|apply sublist_drop].
Qed.

Lemma List_filter_sublist (f : NetflixContent → bool) query :
  List.filter f query `sublist_of` query.
Proof.
  induction query as [|r query IH]; [done|]. cbn [List.filter].
  destruct (f r); [by apply sublist_skip|by apply sublist_cons].
Qed.

Lemma page_filter_sublist (f : NetflixContent → bool) O L query rows :
  Sql.page O L (List.filter f query) = Some rows →
  rows `sublist_of` query ∧ ∀ r, r ∈ rows → f r = true.
Proof.
  intros [-> _]%page_Some. split.
  - etrans; [apply slice_sublist|apply List_filter_sublist].
  - intros r Hr%elem_of_slice.
    by apply list_elem_of_In, filter_In in Hr as [_ ?].
Qed.

Lemma get_content_eq
    (ty ra : option string) (yr : option Z) (co ca ti di cs : option string)
    L O db :
  Router.get_content ty ra yr co ca ti di cs L O db
  = Sql.page O L (List.filter (content_match ty ra yr co ca ti di cs) db).
Proof. unfold Router.get_content. by rewrite get_content_query_eq. Qed.

Lemma search_content_eq q L O db :
  Router.search_content q L O db
  = Sql.page O L (List.filter (search_match q) db).
Proof. unfold Router.search_content. by rewrite search_content_query_eq. Qed.

Lemma get_content_by_rating_eq ra L O db :
  Router.get_content_by_rating ra L O db
  = Sql.page O L (List.filter (test_eq rating ra) db).
Proof. done. Qed.

Lemma get_content_by_category_eq ca L O db :
  Router.get_content_by_category ca L O db
  = Sql.page O L (List.filter (test_ilike listed_in ca) db).
Proof.
  unfold Router.get_content_by_category. by rewrite filter_ilike_eq.
Qed.

Lemma ilike_contains_lower v v' (col : option string) :
  Str.lower v = Str.lower v' → ilike_contains v col = ilike_contains v' col.
Proof.
  intros Hv. unfold ilike_contains, Router.contains_pattern.
  cbn [Str.lower]. by rewrite !lower_app, Hv.
Qed.

End more_query_facts.

(** X8.  Pages follow one another without gap or overlap: the page of [L]
    records at offset [O] followed by the page of [L'] records at offset
    [O + L] is the page of [L + L'] records at offset [O], for the listing,
    the search and the two views, as long as the second offset and the
    joint limit are counts the database takes. *)
Theorem consecutive_pages_concatenate (O L L' : Z) (db : table) :
  0 ≤ O → 0 ≤ L → 0 ≤ L' →
  O + L ≤ Sql.bigint_max → L + L' ≤ Sql.bigint_max →
  (∀ ty ra yr co ca ti di cs, ∃ a b,
     Router.get_content ty ra yr co ca ti di cs L O db = Some a
     ∧ Router.get_content ty ra yr co ca ti di cs L' (O + L) db = Some b
     ∧ Router.get_content ty ra yr co ca ti di cs (L + L') O db
       = Some (a ++ b))
  ∧ (∀ q, ∃ a b,
       Router.search_content q L O db = Some a
       ∧ Router.search_content q L' (O + L) db = Some b
       ∧ Router.search_content q (L + L') O db = Some (a ++ b))
  ∧ (∀ ra, ∃ a b,
       Router.get_content_by_rating ra L O db = Some a
       ∧ Router.get_content_by_rating ra L' (O + L) db = Some b
       ∧ Router.get_content_by_rating ra (L + L') O db = Some (a ++ b))
  ∧ (∀ ca, ∃ a b,
       Router.get_content_by_category ca L O db = Some a
       ∧ Router.get_content_by_category ca L' (O + L) db = Some b
       ∧ Router.get_content_by_category ca (L + L') O db = Some (a ++ b)).
Proof.
  intros HO HL HL' HOL HLL. split; [|split; [|split]]; intros.
  - rewrite !get_content_eq. by apply page_app.
  - rewrite !search_content_eq. by apply page_app.
  - rewrite !get_content_by_rating_eq. by apply page_app.
  - rewrite !get_content_by_category_eq. by apply page_app.
Qed.

Lemma consecutive_pages_concatenate_witness :
  ∃ a b,
    Router.get_content_by_rating "PG" 1 0
      [mk "s1" None None None (Some "PG") None None;
       mk "s2" None None None (Some "R") None None;
       mk "s3" None None None (Some "PG") None None] = Some a
    ∧ Router.get_content_by_rating "PG" 1 (0 + 1)
        [mk "s1" None None None (Some "PG") None None;
         mk "s2" None None None (Some "R") None None;
         mk "s3" None None None (Some "PG") None None] = Some b
    ∧ Router.get_content_by_rating "PG" (1 + 1) 0
        [mk "s1" None None None (Some "PG") None None;
         mk "s2" None None None (Some "R") None None;
         mk "s3" None None None (Some "PG") None None] = Some (a ++ b).
Proof.
  apply (consecutive_pages_concatenate 0 1 1
           [mk "s1" None None None (Some "PG") None None;
            mk "s2" None None None (Some "R") None None;
            mk "s3" None None None (Some "PG") None None]);
    by vm_compute.
Defined.

(** X9.  A read returns records of the table in table order, none more
    often than the table holds it, and each of them passes the filters of
    the request. *)
Theorem reads_return_matching_sublist (L O : Z) (db rows : table) :
  (∀ ty ra yr co ca ti di cs,
     Router.get_content ty ra yr co ca ti di cs L O db = Some rows →
     rows `sublist_of` db
     ∧ ∀ r, r ∈ rows → content_match ty ra yr co ca ti di cs r = true)
  ∧ (∀ q, Router.search_content q L O db = Some rows →
          rows `sublist_of` db ∧ ∀ r, r ∈ rows → search_match q r = true)
  ∧ (∀ ra, Router.get_content_by_rating ra L O db = Some rows →
           rows `sublist_of` db ∧ ∀ r, r ∈ rows → rating r = Some ra)
  ∧ (∀ ca, Router.get_content_by_category ca L O db = Some rows →
           rows `sublist_of` db
           ∧ ∀ r, r ∈ rows → test_ilike listed_in ca r = true).
Proof.
  split; [|split; [|split]]; intros *.
  - rewrite get_content_eq. apply page_filter_sublist.
  - rewrite search_content_eq. apply page_filter_sublist.
  - rewrite get_content_by_rating_eq. intros [? Hm]%page_filter_sublist.
    split; [done|]. intros r Hr%Hm.
    unfold test_eq, Sql.eq_str in Hr. destruct (rating r) as [s|]; [|done].
    by apply bool_decide_eq_true in Hr as ->.
  - rewrite get_content_by_category_eq. apply page_filter_sublist.
Qed.

Lemma reads_return_matching_sublist_witness :
  rating (mk "s1" None None None (Some "PG") None None) = Some "PG".
Proof.
  destruct (reads_return_matching_sublist 20 0
              [mk "s1" None None None (Some "PG") None None;
               mk "s2" None None None (Some "R") None None]
              [mk "s1" None None None (Some "PG") None None])
    as (_ & _ & H & _).
  apply (H "PG" eq_refl). left.
Defined.

(** X10.  Search does not tell the case of its query: two queries that are
    equal once folded to lower case return the same records, and so do two
    categories in the by-category view. *)
Theorem search_ignores_query_case (q q' : string) (L O : Z) (db : table) :
  Str.lower q = Str.lower q' →
  Router.search_content q L O db = Router.search_content q' L O db
  ∧ Router.get_content_by_category q L O db
    = Router.get_content_by_category q' L O db.
Proof.
  intros Hq. rewrite !search_content_eq, !get_content_by_category_eq.
  split; f_equal; apply List.filter_ext; intros r.
  - unfold search_match. by rewrite !(ilike_contains_lower q q').
  - unfold test_ilike. by rewrite (ilike_contains_lower q q').
Qed.

Lemma search_ignores_query_case_witness :
  Router.search_content "DaRk" 20 0
    [mk "s1" None (Some "The Dark Knight") None None None None;
     mk "s2" None (Some "Light") None None None None]
  = Router.search_content "dark" 20 0
      [mk "s1" None (Some "The Dark Knight") None None None None;
       mk "s2" None (Some "Light") None None None None].
Proof.
  apply (search_ignores_query_case "DaRk" "dark"). reflexivity.
Defined.

(** X11.  For a rating or a category that is not empty, the by-rating and
    by-category views are the listing with that one filter. *)
Theorem views_are_single_filter_listings (v : string) (L O : Z) (db : table) :
  v ≠ "" →
  Router.get_content_by_rating v L O db
  = Router.get_content None (Some v) None None None None None None L O db
  ∧ Router.get_content_by_category v L O db
    = Router.get_content None None None None (Some v) None None None L O db.
Proof.
  intros Hv%truthy_ne.
  rewrite get_content_by_rating_eq, get_content_by_category_eq, !get_content_eq.
  split; f_equal; apply List.filter_ext; intros r;
    unfold content_match, str_filter, int_filter; rewrite Hv;
    by rewrite ?andb_true_r.
Qed.

Lemma views_are_single_filter_listings_witness :
  Router.get_content_by_rating "PG" 20 0
    [mk "s1" None None None (Some "PG") None None;
     mk "s2" None None None (Some "R") None None]
  = Router.get_content None (Some "PG") None None None None None None 20 0
      [mk "s1" None None None (Some "PG") None None;
       mk "s2" None None None (Some "R") None None].
Proof.
  apply (views_are_single_filter_listings "PG"). done.
Defined.



Section wildcard_facts.

Implicit Types (w s t g pre post : string) (c d : ascii) (p : list Sql.pat).

Lemma app_assoc_str pre s post : (pre +:+ s) +:+ post = pre +:+ (s +:+ post).
Proof.
  induction pre as [|d pre IH]; [done|]. rewrite !app_String. by rewrite IH.
Qed.

Lemma app_empty_r s : s +:+ "" = s.
Proof. induction s as [|d s IH]; [done|]. by rewrite app_String, IH. Qed.

Lemma split_head_prefix c s :
  ∃ u us post, Str.split c s = u :: us ∧ s = u +:+ post.
Proof.
  induction s as [|d s (u & us & post & Hs & Hpost)]; cbn [Str.split].
  - by exists "", [], "".
  - destruct (Ascii.eqb d c).
    + by exists "", (Str.split c s), (String d s).
    + rewrite Hs. exists (String d u), us, post. split; [done|].
      by rewrite app_String, <- Hpost.
Qed.

Lemma split_piece_substring c s g :
  g ∈ Str.split c s → ∃ pre post, s = pre +:+ g +:+ post.
Proof.
  revert g. induction s as [|d s IH]; intros g; cbn [Str.split].
  - intros ->%list_elem_of_singleton. by exists "", "".
  - destruct (Ascii.eqb d c).
    + intros [->|(pre & post & ->)%IH]%elem_of_cons.
      * by exists "", (String d s).
      * by exists (String d pre), post.
    + destruct (split_head_prefix c s) as (u & us & post & Hs & Hpost).
      rewrite Hs. intros [->|Hg]%elem_of_cons.
      * exists "", post. by rewrite app_String, <- Hpost.
      * destruct (IH g) as (pre & post' & ->); [rewrite Hs; by right|].
        by exists (String d pre), post'.
Qed.

Lemma lstrip_suffix s : ∃ pre, s = pre +:+ Str.lstrip s.
Proof.
  induction s as [|d s [pre IH]]; [by exists ""|]. cbn [Str.lstrip].
  destruct (Str.isspace d); [|by exists ""].
  exists (String d pre). by rewrite app_String, <- IH.
Qed.

Lemma rstrip_prefix s : ∃ post, s = Str.rstrip s +:+ post.
Proof.
  induction s as [|d s [post IH]]; [by exists ""|]. cbn [Str.rstrip].
  destruct (Str.rstrip s) as [|e u] eqn:E.
  - destruct (Str.isspace d).
    + by exists (String d s).
    + exists post. by rewrite app_String, <- IH.
  - exists post. by rewrite app_String, <- IH.
Qed.

Lemma token_substring s t :
  t ∈ Str.tokens s → ∃ pre post, s = pre +:+ t +:+ post.
Proof.
  intros (g & -> & (pre & post & ->)%split_piece_substring)%list_elem_of_fmap.
  unfold Str.strip. destruct (lstrip_suffix g) as [pre' Hg].
  destruct (rstrip_prefix (Str.lstrip g)) as [post' Hl].
  exists (pre +:+ pre'), (post' +:+ post).
  rewrite Hg at 1. rewrite Hl at 1. by rewrite !app_assoc_str.
Qed.

Lemma mem_char_lower_backslash s :
  mem_char Sql.backslash (Str.lower s) = mem_char Sql.backslash s.
Proof.
  induction s as [|d s IH]; [done|]. cbn [Str.lower mem_char]. rewrite IH.
  f_equal. clear. destruct d as [[] [] [] [] [] [] [] []]; reflexivity.
Qed.

(** A pattern without backslash is accepted and matches its own text. *)
Lemma parse_matches_itself w :
  mem_char Sql.backslash w = false →
  ∃ p, Sql.parse w = Some p
       ∧ Sql.parse (w +:+ String Sql.percent EmptyString)
         = Some (p ++ [Sql.Any])
       ∧ Sql.like p w = true.
Proof.
  induction w as [|c w IH]; [by exists []|]. cbn [mem_char].
  intros [Hc Hw]%orb_false_iff. destruct (IH Hw) as (p & Hp & Hp' & Hlike).
  rewrite app_String. cbn [Sql.parse]. rewrite Ascii.eqb_sym, Hc, Hp, Hp'.
  destruct (Ascii.eqb c Sql.percent); [|destruct (Ascii.eqb c Sql.underscore)].
  - exists (Sql.Any :: p). split; [done|]. split; [done|].
    rewrite like_any_cons. destruct w; rewrite like_any_cons, Hlike;
      by rewrite ?orb_true_r.
  - exists (Sql.One :: p). by split.
  - exists (Sql.Lit c :: p). split; [done|]. split; [done|].
    cbn [Sql.like]. by rewrite Ascii.eqb_refl.
Qed.

Lemma like_app_any p w post :
  Sql.like p w = true → Sql.like (p ++ [Sql.Any]) (w +:+ post) = true.
Proof.
  revert w. induction p as [|[| |c] p IH]; intros w.
  - destruct w; [|done]. intros _. apply like_any_nil.
  - cbn [app]. induction w as [|d w IHw].
    + rewrite like_any_cons, orb_false_r. intros H%IH.
      rewrite like_any_cons, H. done.
    + rewrite like_any_cons. rewrite app_String, (like_any_cons _ (String d _)).
      intros [H%IH|H%IHw]%orb_true_iff.
      * rewrite app_String in H. by rewrite H.
      * rewrite H. apply orb_true_r.
  - destruct w as [|d w]; [done|]. cbn [app Sql.like]. rewrite app_String.
    apply IH.
  - destruct w as [|d w]; [done|]. cbn [app Sql.like]. rewrite app_String.
    intros [-> H%IH]%andb_true_iff. by rewrite H.
Qed.

Lemma like_any_pre p pre s :
  Sql.like (Sql.Any :: p) s = true →
  Sql.like (Sql.Any :: p) (pre +:+ s) = true.
Proof.
  intros H. induction pre as [|d pre IH]; [done|].
  rewrite app_String, like_any_cons, IH. apply orb_true_r.
Qed.

Lemma token_matches_its_field s t :
  no_backslash t = true → t ∈ Str.tokens s →
  Sql.holds (ilike_contains t (Some s)) = true.
Proof.
  unfold no_backslash. intros Ht%negb_true_iff (pre & post & ->)%token_substring.
  rewrite <- mem_char_lower_backslash in Ht.
  destruct (parse_matches_itself _ Ht) as (p & _ & Hp & Hlike).
  unfold ilike_contains, Router.contains_pattern. cbn [Str.lower].
  rewrite lower_app.
  change (Str.lower_char Sql.percent) with Sql.percent.
  change (Str.lower (String Sql.percent "")) with (String Sql.percent "").
  cbn [Sql.parse]. change (Ascii.eqb Sql.percent Sql.backslash) with false.
  change (Ascii.eqb Sql.percent Sql.percent) with true. cbv iota.
  rewrite Hp. cbn [fmap option_fmap option_map Sql.holds].
  rewrite !lower_app. rewrite like_any_pre; [done|].
  rewrite like_any_cons. by rewrite like_app_any.
Qed.

End wildcard_facts.

(** X13.  A category the facet lists, if it holds no backslash, selects at
    least one record in the by-category view from offset 0 with a limit of
    at least 1 that the database takes. *)
Theorem listed_category_selects_records (db : table) (t : string) (L : Z) :
  1 ≤ L ≤ Sql.bigint_max →
  no_backslash t = true →
  t ∈ Facets.get_all_categories db →
  ∃ r rows, Router.get_content_by_category t L 0 db = Some (r :: rows).
Proof.
  intros HL Hback Ht. unfold Facets.get_all_categories in Ht.
  apply elem_of_sorted, elem_of_elements, elem_of_foldl_add_row in Ht
    as [Ht|(s & Hs & _ & Ht)]; [by apply elem_of_empty in Ht|].
  apply elem_of_ne_empty_column in Hs as (_ & r & Hr & Hrs).
  rewrite get_content_by_category_eq.
  rewrite page_accepted by (unfold Sql.bigint_max in *; lia).
  unfold Sql.slice.
  change (Z.to_nat 0) with 0%nat. cbn [drop].
  assert (Hin : r ∈ List.filter (test_ilike listed_in t) db).
  { apply list_elem_of_In, filter_In. split; [by apply list_elem_of_In|].
    unfold test_ilike. rewrite Hrs. by apply token_matches_its_field. }
  destruct (List.filter _ db) as [|r0 rows]; [by apply elem_of_nil in Hin|].
  destruct (Z.to_nat L) as [|n] eqn:En; [lia|]. cbn [take]. eauto.
Qed.

Lemma listed_category_selects_records_witness :
  ∃ r rows,
    Router.get_content_by_category "100%_Kids" 20 0
      [mk "s1" None None None None None (Some "Dramas, 100%_Kids")]
    = Some (r :: rows).
Proof.
  apply (listed_category_selects_records
           [mk "s1" None None None None None (Some "Dramas, 100%_Kids")]);
    [by vm_compute|reflexivity|].
  vm_compute. left.
Defined.

(** ** Properties of the lookup by id *)

(** X14.  [get_content_by_id] answers NotFound exactly when no row has the
    id, and otherwise with a row of the table that has it; as the id is the
    primary key, that is the one row stored under it. *)
Theorem get_content_by_id_lookup (content_id : Z) (db : ById.keyed_table) :
  (ById.get_content_by_id content_id db = ById.NotFound
   ↔ content_id ∉ db.*1)
  ∧ (∀ row, ById.get_content_by_id content_id db = ById.Ok row →
            row ∈ db ∧ row.1 = content_id)
  ∧ (NoDup db.*1 →
     ∀ r, (content_id, r) ∈ db →
          ById.get_content_by_id content_id db = ById.Ok (content_id, r)).
Proof.
  unfold ById.get_content_by_id.
  induction db as [|[i x] db (IH1 & IH2 & IH3)].
  - split; [|split]; [|done|].
    + split; [intros _; apply not_elem_of_nil|done].
    + intros _ r Hr. by apply elem_of_nil in Hr.
  - cbn [List.find fst fmap list_fmap]. destruct (i =? content_id) eqn:E.
    + apply Z.eqb_eq in E as ->. split; [|split].
      * split; [done|]. intros H. exfalso. apply H. left.
      * intros row [= <-]. split; [left|done].
      * intros [Hi Hnd]%NoDup_cons r [[= <-]|Hr]%elem_of_cons; [done|].
        exfalso. apply Hi. apply list_elem_of_fmap. by exists (content_id, r).
    + apply Z.eqb_neq in E. split; [|split].
      * rewrite IH1, not_elem_of_cons. split; [auto|]. by intros [_ ?].
      * intros row [Hrow ?]%IH2. split; [by right|done].
      * intros [Hi Hnd]%NoDup_cons r [[= ? _]|Hr]%elem_of_cons; [done|].
        by apply IH3.
Qed.

Lemma get_content_by_id_lookup_witness :
  ById.get_content_by_id 2
    [(1, mk "s1" None (Some "Alpha") None None None None);
     (2, mk "s2" None (Some "Beta") None None None None)]
  = ById.Ok (2, mk "s2" None (Some "Beta") None None None None)
  ∧ ById.get_content_by_id 7
      [(1, mk "s1" None (Some "Alpha") None None None None)]
    = ById.NotFound.
Proof.
  split.
  - apply (get_content_by_id_lookup 2
             [(1, mk "s1" None (Some "Alpha") None None None None);
              (2, mk "s2" None (Some "Beta") None None None None)]).
    + cbn. apply NoDup_cons. split; [|apply NoDup_singleton].
      by intros ?%list_elem_of_singleton.
    + right. left.
  - apply (get_content_by_id_lookup 7
             [(1, mk "s1" None (Some "Alpha") None None None None)]).
    intros [= ]%list_elem_of_singleton.
Defined.

(** ** Further properties of the bulk import *)

Section more_import_facts.

Variable read_csv : string → Loader.exn + list Loader.csv_row.
Variable to_numeric_text : string → option Z.
Variable autoflush : bool.
Variable fault : nat → bool.

Implicit Types (s : Loader.Session) (c : Loader.counters)
  (row : Loader.frame_row) (df : list Loader.frame_row) (t : table).

(** *** The counters *)

Lemma import_row_counts row c s c' s' :
  Loader.import_row autoflush fault row c s = (inr c', s') →
  Loader.records_inserted c' + Loader.records_skipped c'
  = Loader.records_inserted c + Loader.records_skipped c + 1
  ∧ Loader.records_inserted c ≤ Loader.records_inserted c'
  ∧ Loader.records_skipped c ≤ Loader.records_skipped c'.
Proof.
  unfold Loader.import_row. intros (r & s1 & _ & H)%bind_ok.
  destruct r as [x|]; injection H as <- _; simpl; lia.
Qed.

Lemma import_rows_counts (batch : list Loader.frame_row) c s c' s' :
  Loader.for_each batch (Loader.import_row autoflush fault) c s
  = (inr c', s') →
  Loader.records_inserted c' + Loader.records_skipped c'
  = Loader.records_inserted c + Loader.records_skipped c
    + Z.of_nat (length batch)
  ∧ Loader.records_inserted c ≤ Loader.records_inserted c'
  ∧ Loader.records_skipped c ≤ Loader.records_skipped c'.
Proof.
  revert c s. induction batch as [|row batch IH]; intros c s.
  - intros [= <- _]. simpl. lia.
  - intros (c1 & s1 & H1%import_row_counts & H2%IH)%for_each_cons_ok.
    rewrite length_cons. lia.
Qed.

Lemma import_batches_counts df (starts : list nat) c s c' s' :
  Loader.for_each starts (Loader.import_batch autoflush fault df) c s
  = (inr c', s') →
  Loader.records_inserted c' + Loader.records_skipped c'
  = Loader.records_inserted c + Loader.records_skipped c
    + Z.of_nat (length (concat (batch_at df <$> starts)))
  ∧ Loader.records_inserted c ≤ Loader.records_inserted c'
  ∧ Loader.records_skipped c ≤ Loader.records_skipped c'.
Proof.
  revert c s. induction starts as [|start starts IH]; intros c s.
  - intros [= <- _]. simpl. lia.
  - intros (c1 & s1 & H1 & H2%IH)%for_each_cons_ok.
    unfold Loader.import_batch in H1. fold (batch_at df start) in H1.
    apply bind_ok in H1 as (c0 & s0 & H0%import_rows_counts & H1).
    apply bind_ok in H1 as (u & s2 & _ & H1). injection H1 as <- _.
    cbn [fmap list_fmap concat]. rewrite length_app. lia.
Qed.

(** *** The unique constraint *)

Lemma unique_round_trip : stable unique_ids (Loader.round_trip fault).
Proof.
  intros s Hs. unfold spec, Loader.round_trip. by destruct (fault _).
Qed.

Lemma unique_insert_rows (rows : table) :
  stable unique_ids (Loader.insert_rows rows).
Proof.
  induction rows as [|r rows IH]; intros s Hs; [done|].
  unfold spec. cbn [Loader.insert_rows].
  destruct (negb _); [done|].
  destruct (Loader.has_show_id _ _) eqn:E; [done|].
  apply IH. unfold unique_ids in *. cbn [Loader.committed Loader.flushed].
  rewrite app_assoc, fmap_app. apply NoDup_app. split; [done|].
  split; [|apply NoDup_singleton].
  intros sid Hsid ->%list_elem_of_singleton.
  assert (Loader.has_show_id (show_id r)
            (Loader.committed s ++ Loader.flushed s) = true) as Htrue; [|congruence].
  unfold Loader.has_show_id. apply existsb_exists.
  apply list_elem_of_fmap in Hsid as (x & Hx & Hin).
  exists x. split; [by apply list_elem_of_In|]. by apply bool_decide_eq_true.
Qed.

Lemma unique_flush : stable unique_ids Loader.flush.
Proof. intros s Hs. by apply unique_insert_rows. Qed.

Lemma unique_autoflush :
  stable unique_ids (if autoflush then Loader.flush else mret ()).
Proof. destruct autoflush; [apply unique_flush|apply stable_ret]. Qed.

Lemma unique_query_first sid :
  stable unique_ids (Loader.query_first autoflush fault sid).
Proof.
  unfold Loader.query_first.
  apply stable_bind; [apply unique_round_trip|intros _].
  apply stable_bind; [apply unique_autoflush|intros _]. apply stable_gets.
Qed.

Lemma unique_import_row row c :
  stable unique_ids (Loader.import_row autoflush fault row c).
Proof.
  unfold Loader.import_row.
  apply stable_bind; [apply unique_query_first|intros [r|]].
  - apply stable_ret.
  - apply stable_bind; [by intros s Hs|intros _]. apply stable_ret.
Qed.

Lemma unique_commit : stable unique_ids (Loader.commit fault).
Proof.
  unfold Loader.commit.
  apply stable_bind; [apply unique_round_trip|intros _].
  apply stable_bind; [apply unique_flush|intros _].
  intros s Hs. unfold spec, unique_ids in *. simpl. by rewrite app_nil_r.
Qed.

Lemma unique_get_statistics :
  stable unique_ids (Loader.get_statistics autoflush fault).
Proof.
  unfold Loader.get_statistics.
  apply stable_bind; [apply unique_round_trip|intros _].
  apply stable_bind; [apply unique_autoflush|intros _]. apply stable_gets.
Qed.

Lemma unique_rollback : stable unique_ids Loader.rollback.
Proof.
  intros s Hs. unfold spec, unique_ids in *. simpl.
  rewrite app_nil_r. rewrite fmap_app in Hs. by apply NoDup_app in Hs as [? _].
Qed.

Lemma unique_load csv_path :
  stable unique_ids
    (Loader.load_netflix_data_from_csv read_csv to_numeric_text autoflush fault
       csv_path).
Proof.
  unfold Loader.load_netflix_data_from_csv, Loader.load_body.
  apply stable_try_except.
  - destruct (read_csv csv_path) as [e|file]; [apply stable_raise|].
    apply stable_bind; [|intros c].
    + unfold Loader.import_frame, Loader.import_batches.
      apply stable_for_each. intros start c. unfold Loader.import_batch.
      apply stable_bind.
      * apply stable_for_each. intros row c'. apply unique_import_row.
      * intros c'. apply stable_bind; [apply unique_commit|intros _].
        apply stable_ret.
    + apply stable_bind; [apply unique_get_statistics|intros stats].
      apply stable_ret.
  - intros e. apply stable_bind; [apply unique_rollback|intros _].
    apply stable_raise.
Qed.

(** *** The rows already stored *)

Lemma extends_frozen {A} t (m : Loader.M A) :
  (∀ t', stable (committed_is t') m) → stable (extends t) m.
Proof.
  intros Hm s Hs. specialize (Hm (Loader.committed s) s eq_refl).
  unfold spec, extends, committed_is in *.
  destruct (m s) as [[e|a] s']; by rewrite Hm.
Qed.

Lemma extends_commit t : stable (extends t) (Loader.commit fault).
Proof.
  unfold Loader.commit.
  apply stable_bind;
    [apply extends_frozen; intros; apply frozen_round_trip|intros _].
  apply stable_bind; [apply extends_frozen; intros; apply frozen_flush|intros _].
  intros s Hs. unfold spec, extends in *. simpl. by apply prefix_app_r.
Qed.

Lemma extends_load t csv_path :
  stable (extends t)
    (Loader.load_netflix_data_from_csv read_csv to_numeric_text autoflush fault
       csv_path).
Proof.
  unfold Loader.load_netflix_data_from_csv, Loader.load_body.
  apply stable_try_except.
  - destruct (read_csv csv_path) as [e|file]; [apply stable_raise|].
    apply stable_bind; [|intros c].
    + unfold Loader.import_frame, Loader.import_batches.
      apply stable_for_each. intros start c. unfold Loader.import_batch.
      apply stable_bind.
      * apply stable_for_each. intros row c'.
        apply extends_frozen. intros. apply frozen_import_row.
      * intros c'. apply stable_bind; [apply extends_commit|intros _].
        apply stable_ret.
    + apply stable_bind; [|intros stats; apply stable_ret].
      apply extends_frozen. intros. apply frozen_get_statistics.
  - intros e. apply stable_bind; [by intros s Hs|intros _].
    apply stable_raise.
Qed.

End more_import_facts.

(** X15.  A successful import has inserted or skipped every row of the
    file: the two counters are not negative and add up to the number of rows
    processed. *)
Theorem import_counts_add_up
    (read_csv : string → Loader.exn + list Loader.csv_row)
    (to_numeric_text : string → option Z) (autoflush : bool)
    (fault : nat → bool) (csv_path : string)
    (s s' : Loader.Session) (res : Loader.load_result) :
  Loader.load_netflix_data_from_csv read_csv to_numeric_text autoflush fault
    csv_path s = (inr res, s') →
  Loader.result_inserted res + Loader.result_skipped res
  = Loader.records_processed res
  ∧ 0 ≤ Loader.result_inserted res
  ∧ 0 ≤ Loader.result_skipped res
  ∧ ∃ file, read_csv csv_path = inr file
            ∧ Loader.records_processed res = Z.of_nat (length file).
Proof.
  unfold Loader.load_netflix_data_from_csv, Loader.try_except.
  destruct (Loader.load_body _ _ _ _ _ s) as [[e|res0] sr] eqn:Hbody; [done|].
  intros [= -> ->]. unfold Loader.load_body in Hbody.
  destruct (read_csv csv_path) as [e|file]; [done|]. cbn zeta in Hbody.
  apply bind_ok in Hbody as (c & sb & Hframe & Hbody).
  apply bind_ok in Hbody as (st & s1 & _ & Hret). injection Hret as <- _.
  apply import_batches_counts in Hframe as (Hsum & Hins & Hskip).
  rewrite batches_cover in Hsum. cbn in *.
  split; [lia|]. split; [lia|]. split; [lia|].
  exists file. split; [done|]. by rewrite length_fmap.
Qed.

Lemma import_counts_add_up_witness :
  ∃ res s',
    Loader.load_netflix_data_from_csv one_file no_number true no_fault
      "netflix.csv" empty_session = (inr res, s')
    ∧ Loader.result_inserted res + Loader.result_skipped res = 3.
Proof.
  destruct (Loader.load_netflix_data_from_csv one_file no_number true
              no_fault "netflix.csv" empty_session) as [r s'] eqn:Hrun.
  assert (Hr : r = (Loader.load_netflix_data_from_csv one_file no_number
                      true no_fault "netflix.csv" empty_session).1)
    by (by rewrite Hrun).
  vm_compute in Hr. subst r. eexists _, s'. split; [reflexivity|].
  destruct (import_counts_add_up _ _ _ _ _ _ _ _ Hrun) as (-> & _). reflexivity.
Defined.

(** X16.  The import keeps the unique constraint on [show_id]: when the ids
    of the committed table are pairwise distinct before, they are so after,
    whether the import returns or raises. *)
Theorem import_keeps_show_id_unique
    (read_csv : string → Loader.exn + list Loader.csv_row)
    (to_numeric_text : string → option Z) (autoflush : bool)
    (fault : nat → bool) (csv_path : string) (s : Loader.Session) :
  Loader.flushed s = [] →
  NoDup (show_id <$> Loader.committed s) →
  NoDup (show_id <$>
           Loader.committed
             (Loader.load_netflix_data_from_csv read_csv to_numeric_text
                autoflush fault csv_path s).2).
Proof.
  intros Hf Hs.
  assert (H : unique_ids
                (Loader.load_netflix_data_from_csv read_csv to_numeric_text
                   autoflush fault csv_path s).2).
  { apply stable_run; [apply unique_load|].
    unfold unique_ids. by rewrite Hf, app_nil_r. }
  unfold unique_ids in H. rewrite fmap_app in H.
  by apply NoDup_app in H as [? _].
Qed.

Lemma import_keeps_show_id_unique_witness :
  NoDup (show_id <$>
           Loader.committed
             (Loader.load_netflix_data_from_csv
                (fun _ => inr (three_rows ++ three_rows)) no_number true
                no_fault "netflix.csv" empty_session).2).
Proof.
  apply import_keeps_show_id_unique; [reflexivity|constructor].
Defined.

(** X17.  The import never changes or removes a record that is already
    stored: the committed table after it, returned or raised, starts with
    the committed table before it. *)
Theorem import_keeps_stored_records
    (read_csv : string → Loader.exn + list Loader.csv_row)
    (to_numeric_text : string → option Z) (autoflush : bool)
    (fault : nat → bool) (csv_path : string) (s : Loader.Session) :
  Loader.committed s
  `prefix_of`
    Loader.committed
      (Loader.load_netflix_data_from_csv read_csv to_numeric_text autoflush
         fault csv_path s).2.
Proof.
  apply (stable_run (extends (Loader.committed s))); [apply extends_load|].
  unfold extends. reflexivity.
Qed.





(** X19.  After a successful import from a session with nothing pending,
    the id of every row of the file is the [show_id] of a committed
    record. *)
Theorem imported_ids_are_stored
    (read_csv : string → Loader.exn + list Loader.csv_row)
    (to_numeric_text : string → option Z) (autoflush : bool)
    (fault : nat → bool) (csv_path : string)
    (s s' : Loader.Session) (res : Loader.load_result)
    (file : list Loader.csv_row) :
  clean s →
  read_csv csv_path = inr file →
  Loader.load_netflix_data_from_csv read_csv to_numeric_text autoflush fault
    csv_path s = (inr res, s') →
  ∀ r, r ∈ file →
       Loader.astype_str (Loader.fillna_empty (Loader.csv_show_id r))
       ∈ show_id <$> Loader.committed s'.
Proof.
  intros Hs Hread.
  unfold Loader.load_netflix_data_from_csv, Loader.try_except.
  destruct (Loader.load_body _ _ _ _ _ s) as [[e|res0] sr] eqn:Hbody; [done|].
  intros [= -> ->]. unfold Loader.load_body in Hbody. rewrite Hread in Hbody.
  cbn zeta in Hbody.
  set (df := Loader.prepare_row to_numeric_text <$> file) in *.
  apply bind_ok in Hbody as (c & sb & Hframe & Hbody).
  apply bind_ok in Hbody as (st & s1 & Hstats & Hret). injection Hret as _ <-.
  destruct (import_batches_ok _ _ _ _ _ _ _ _ Hframe Hs) as (Hsb & _ & Hrows).
  destruct (get_statistics_ok _ _ _ _ _ Hstats Hsb) as (_ & -> & _).
  intros r Hr.
  assert (Hin : Loader.prepare_row to_numeric_text r ∈ df)
    by (by apply list_elem_of_fmap_2).
  rewrite <- (batches_cover df) in Hin.
  apply list_elem_of_In, in_concat in Hin as (batch & Hbatch & Hin).
  apply list_elem_of_In in Hbatch, Hin.
  apply list_elem_of_fmap in Hbatch as (start & -> & Hstart).
  apply (Hrows start _ Hstart Hin).
Qed.

Lemma imported_ids_are_stored_witness :
  "3" ∈ show_id <$>
          Loader.committed
            (Loader.load_netflix_data_from_csv one_file no_number false
               no_fault "netflix.csv" empty_session).2.
Proof.
  destruct (Loader.load_netflix_data_from_csv one_file no_number false
              no_fault "netflix.csv" empty_session) as [r s'] eqn:Hrun.
  assert (Hr : r = (Loader.load_netflix_data_from_csv one_file no_number
                      false no_fault "netflix.csv" empty_session).1)
    by (by rewrite Hrun).
  vm_compute in Hr. subst r.
  apply (imported_ids_are_stored one_file no_number false no_fault
           "netflix.csv" empty_session s' _ three_rows
           (conj eq_refl eq_refl) eq_refl Hrun
           (csv (Loader.Int 3) (Loader.Text "Gamma") (Loader.Text "n/a")
              Loader.NaN)).
  right. right. left.
Defined.

(** *** An autoflushing session *)

Lemma has_show_id_false (sid : string) (rows : table) :
  Loader.has_show_id sid rows = false ↔ sid ∉ show_id <$> rows.
Proof.
  unfold Loader.has_show_id. rewrite <- not_true_iff_false, existsb_exists.
  apply not_iff_compat. rewrite list_elem_of_fmap. split.
  - intros (r & Hr%list_elem_of_In & Hsid%bool_decide_eq_true). eauto.
  - intros (r & -> & Hr%list_elem_of_In). exists r.
    split; [done|]. by apply bool_decide_eq_true.
Qed.


Section autoflush_total.

Implicit Types (s : Loader.Session) (c : Loader.counters)
  (row : Loader.frame_row) (df : list Loader.frame_row).




Lemma frame_fits_batch_at df (start : nat) :
  frame_fits df → frame_fits (batch_at df start).
Proof. intros Hdf. unfold batch_at. by apply Forall_take, Forall_drop. Qed.

Lemma years_fit_frame_fits (to_numeric_text : string → option Z)
    (file : list Loader.csv_row) :
  years_fit to_numeric_text file = true →
  frame_fits (Loader.prepare_row to_numeric_text <$> file).
Proof.
  unfold years_fit, frame_fits. rewrite forallb_forall, Forall_fmap, Forall_forall.
  intros H r Hr. by apply H, list_elem_of_In.
Qed.






End autoflush_total.



(** *** What a successful import stores *)

Lemma stable_ok {A} (I : Loader.Session → Prop) (m : Loader.M A)
    (s s' : Loader.Session) (a : A) :
  stable I m → I s → m s = (inr a, s') → I s'.
Proof.
  intros Hm Hs Hrun. pose proof (stable_run I m s Hm Hs) as H.
  by rewrite Hrun in H.
Qed.

Lemma fresh_rows_app (seen : list string) (a b : list Loader.frame_row) :
  fresh_rows seen (a ++ b)
  = fresh_rows seen a
    ++ fresh_rows (seen ++ (Loader.row_show_id <$> fresh_rows seen a)) b.
Proof.
  revert seen. induction a as [|row a IH]; intros seen.
  - cbn. by rewrite app_nil_r.
  - cbn [app fresh_rows].
    destruct (decide (Loader.row_show_id row ∈ seen)); [apply IH|].
    rewrite IH. cbn [app fmap list_fmap]. by rewrite <- app_assoc.
Qed.

Lemma show_id_new_content (rows : list Loader.frame_row) :
  show_id <$> (Loader.new_content <$> rows) = Loader.row_show_id <$> rows.
Proof. rewrite <- list_fmap_compose. by apply list_fmap_ext. Qed.

Section exact_import.

Variable autoflush : bool.
Variable fault : nat → bool.

Implicit Types (s : Loader.Session) (c : Loader.counters)
  (row : Loader.frame_row) (df : list Loader.frame_row).

Lemma import_row_step row c s c' s' :
  Loader.import_row autoflush fault row c s = (inr c', s') →
  (session_rows s' = session_rows s
   ∧ Loader.row_show_id row ∈ show_id <$> session_rows s
   ∧ Loader.records_inserted c' = Loader.records_inserted c)
  ∨ (session_rows s' = session_rows s ++ [Loader.new_content row]
     ∧ Loader.records_inserted c' = Loader.records_inserted c + 1).
Proof.
  unfold Loader.import_row.
  intros (r & s1 & (Hc & Hfp & Hr)%query_first_ok & H)%bind_ok.
  assert (Hrows : session_rows s1 = session_rows s).
  { unfold session_rows. by rewrite Hc, Hfp. }
  destruct r as [x|].
  - injection H as <- <-. left. split; [done|]. split; [|done].
    symmetry in Hr. apply find_some in Hr as [Hx Hsid].
    apply bool_decide_eq_true in Hsid. rewrite <- Hrows, <- Hsid.
    apply list_elem_of_fmap_2. apply list_elem_of_In in Hx.
    unfold session_rows. rewrite app_assoc. apply elem_of_app. by left.
  - injection H as <- <-. right. split; [|done].
    rewrite <- Hrows. unfold session_rows. simpl.
    by rewrite <- !app_assoc.
Qed.

Lemma import_rows_step (batch : list Loader.frame_row) c s c' s' :
  Loader.for_each batch (Loader.import_row autoflush fault) c s
  = (inr c', s') →
  ∃ added,
    session_rows s' = session_rows s ++ (Loader.new_content <$> added)
    ∧ Loader.records_inserted c'
      = Loader.records_inserted c + Z.of_nat (length added)
    ∧ (NoDup (show_id <$> session_rows s') →
       added = fresh_rows (show_id <$> session_rows s) batch).
Proof.
  revert c s. induction batch as [|row batch IH]; intros c s.
  - intros [= <- <-]. exists []. cbn. rewrite app_nil_r.
    split; [done|]. split; [lia|done].
  - intros (c1 & s1 & Hstep%import_row_step
            & (added & Hrows & Hins & Hfresh)%IH)%for_each_cons_ok.
    destruct Hstep as [(Hs1 & Hsid & Hc1)|(Hs1 & Hc1)].
    + exists added. rewrite Hs1 in Hrows, Hfresh.
      split; [done|]. split; [lia|]. intros Hnd. cbn [fresh_rows].
      rewrite decide_True by done. auto.
    + exists (row :: added). rewrite Hs1 in Hrows.
      split; [by rewrite Hrows, <- app_assoc|].
      split; [rewrite length_cons; lia|]. intros Hnd.
      cbn [fresh_rows]. rewrite decide_False.
      * f_equal. rewrite (Hfresh Hnd), Hs1, fmap_app. done.
      * rewrite Hrows, <- app_assoc, fmap_app in Hnd.
        apply NoDup_app in Hnd as (_ & Hnd & _). intros Hin.
        apply (Hnd _ Hin). cbn. left.
Qed.

Lemma import_batch_exact df (start : nat) c s c' s' :
  Loader.import_batch autoflush fault df start c s = (inr c', s') →
  clean s →
  NoDup (show_id <$> Loader.committed s) →
  clean s'
  ∧ NoDup (show_id <$> Loader.committed s')
  ∧ Loader.committed s'
    = Loader.committed s
      ++ (Loader.new_content
            <$> fresh_rows (show_id <$> Loader.committed s) (batch_at df start))
  ∧ Loader.records_inserted c'
    = Loader.records_inserted c
      + Z.of_nat (length (fresh_rows (show_id <$> Loader.committed s)
                            (batch_at df start))).
Proof.
  unfold Loader.import_batch. fold (batch_at df start).
  intros (c1 & s1 & Hrows & H)%bind_ok [Hf Hp] Hnd.
  apply bind_ok in H as (u & s2 & Hcommit & H). injection H as <- <-.
  assert (Hu : unique_ids s) by (unfold unique_ids; by rewrite Hf, app_nil_r).
  assert (Hu1 : unique_ids s1).
  { eapply stable_ok; [|exact Hu|exact Hrows].
    apply stable_for_each. intros. apply unique_import_row. }
  assert (Hu2 : unique_ids s2)
    by (eapply stable_ok; [apply unique_commit|exact Hu1|exact Hcommit]).
  apply commit_ok in Hcommit as (Hc2 & Hclean).
  destruct Hclean as [Hf2 Hp2]. unfold unique_ids in Hu2.
  rewrite Hf2, app_nil_r, Hc2 in Hu2.
  apply import_rows_step in Hrows as (added & Hs1 & Hins & Hfresh).
  assert (Hs : session_rows s = Loader.committed s)
    by (unfold session_rows; by rewrite Hf, Hp, !app_nil_r).
  rewrite Hs in *. rewrite (Hfresh Hu2) in *.
  split; [done|]. split; [by rewrite Hc2|]. split; [by rewrite Hc2|done].
Qed.

Lemma import_batches_exact df (starts : list nat) c s c' s' :
  Loader.for_each starts (Loader.import_batch autoflush fault df) c s
  = (inr c', s') →
  clean s →
  NoDup (show_id <$> Loader.committed s) →
  clean s'
  ∧ Loader.committed s'
    = Loader.committed s
      ++ (Loader.new_content
            <$> fresh_rows (show_id <$> Loader.committed s)
                  (concat (batch_at df <$> starts)))
  ∧ Loader.records_inserted c'
    = Loader.records_inserted c
      + Z.of_nat (length (fresh_rows (show_id <$> Loader.committed s)
                            (concat (batch_at df <$> starts)))).
Proof.
  revert c s. induction starts as [|start starts IH]; intros c s.
  - intros [= <- <-] Hs _. cbn. rewrite app_nil_r. split; [done|].
    split; [done|lia].
  - intros (c1 & s1 & Hbatch & Hrest)%for_each_cons_ok Hs Hnd.
    destruct (import_batch_exact _ _ _ _ _ _ Hbatch Hs Hnd)
      as (Hs1 & Hnd1 & Hc1 & Hi1).
    destruct (IH _ _ Hrest Hs1 Hnd1) as (Hs' & Hc' & Hi').
    cbn [fmap list_fmap concat]. rewrite fresh_rows_app.
    rewrite Hc1, fmap_app, show_id_new_content in Hc', Hi'.
    split; [done|]. split.
    + by rewrite Hc', fmap_app, <- app_assoc.
    + rewrite length_app. lia.
Qed.

End exact_import.

(** X21.  A successful import from a session with nothing pending, into a
    table whose ids are distinct, appends to the table, in file order, one
    record for every row whose id was neither stored nor met earlier in the
    file, and nothing else; [inserted] counts these rows, [skipped] the
    others, and the statistics returned are those of the table after the
    import. *)
Theorem import_appends_first_new_rows
    (read_csv : string → Loader.exn + list Loader.csv_row)
    (to_numeric_text : string → option Z) (autoflush : bool)
    (fault : nat → bool) (csv_path : string)
    (s s' : Loader.Session) (res : Loader.load_result)
    (file : list Loader.csv_row) :
  clean s →
  NoDup (show_id <$> Loader.committed s) →
  read_csv csv_path = inr file →
  Loader.load_netflix_data_from_csv read_csv to_numeric_text autoflush fault
    csv_path s = (inr res, s') →
  Loader.committed s'
  = Loader.committed s
    ++ (Loader.new_content
          <$> fresh_rows (show_id <$> Loader.committed s)
                (Loader.prepare_row to_numeric_text <$> file))
  ∧ Loader.result_inserted res
    = Z.of_nat (length (fresh_rows (show_id <$> Loader.committed s)
                          (Loader.prepare_row to_numeric_text <$> file)))
  ∧ Loader.result_skipped res
    = Z.of_nat (length file) - Loader.result_inserted res
  ∧ Loader.statistics res = Stats.get_statistics (Loader.committed s').
Proof.
  intros Hs Hnd Hread.
  unfold Loader.load_netflix_data_from_csv, Loader.try_except.
  destruct (Loader.load_body _ _ _ _ _ s) as [[e|res0] sr] eqn:Hbody; [done|].
  intros [= -> ->]. unfold Loader.load_body in Hbody. rewrite Hread in Hbody.
  cbn zeta in Hbody.
  set (df := Loader.prepare_row to_numeric_text <$> file) in *.
  apply bind_ok in Hbody as (c & sb & Hframe & Hbody).
  apply bind_ok in Hbody as (st & s1 & Hstats & Hret). injection Hret as <- <-.
  unfold Loader.import_frame, Loader.import_batches in Hframe.
  pose proof (import_batches_counts _ _ _ _ _ _ _ _ Hframe) as (Hsum & _).
  destruct (import_batches_exact _ _ _ _ _ _ _ _ Hframe Hs Hnd)
    as (Hsb & Hcb & Hib).
  rewrite batches_cover in Hsum, Hcb, Hib.
  destruct (get_statistics_ok _ _ _ _ _ Hstats Hsb) as (-> & Hc1 & _).
  cbn [Loader.result_inserted Loader.result_skipped Loader.statistics].
  cbn [Loader.records_inserted Loader.records_skipped] in Hsum, Hib.
  rewrite Hc1. split; [done|]. split; [lia|]. split; [|done].
  unfold df in Hsum. rewrite length_fmap in Hsum. lia.
Qed.

Lemma import_appends_first_new_rows_witness :
  show_id <$>
    Loader.committed
      (Loader.load_netflix_data_from_csv
         (fun _ => inr (three_rows ++ three_rows)) no_number true no_fault
         "netflix.csv" empty_session).2
  = ["s1"; "s2"; "3"].
Proof.
  destruct (Loader.load_netflix_data_from_csv
              (fun _ => inr (three_rows ++ three_rows)) no_number true
              no_fault "netflix.csv" empty_session) as [r s'] eqn:Hrun.
  assert (Hr : r = (Loader.load_netflix_data_from_csv
                      (fun _ => inr (three_rows ++ three_rows)) no_number
                      true no_fault "netflix.csv" empty_session).1)
    by (by rewrite Hrun).
  vm_compute in Hr. subst r. cbn [snd].
  destruct (import_appends_first_new_rows
              (fun _ => inr (three_rows ++ three_rows)) no_number true
              no_fault "netflix.csv" empty_session s' _
              (three_rows ++ three_rows) (conj eq_refl eq_refl)
              (NoDup_nil_2 (A:=string)) eq_refl Hrun) as (-> & _).
  reflexivity.
Defined.

(** *** A session that does not flush before its queries *)

Lemma insert_rows_fails (rows : table) (s : Loader.Session) :
  Forall (fun r => Sql.fits_integer (release_year r) = true) rows →
  ¬ (NoDup (show_id <$> rows)
     ∧ ∀ r, r ∈ rows →
            show_id r ∉ show_id <$> (Loader.committed s ++ Loader.flushed s)) →
  ∃ s', Loader.insert_rows rows s = (inl Loader.IntegrityError, s').
Proof.
  intros Hfit. revert s.
  induction Hfit as [|r rows Hr Hfit IH]; intros s Hbad.
  - exfalso. apply Hbad. split; [constructor|].
    intros r Hr. by apply elem_of_nil in Hr.
  - cbn [Loader.insert_rows]. rewrite Hr. cbn [negb].
    destruct (Loader.has_show_id _ _) eqn:E; [by eexists|].
    apply has_show_id_false in E. apply IH. intros [Hnd Hnew].
    cbn [Loader.committed Loader.flushed] in Hnew.
    apply Hbad. split.
    + rewrite fmap_cons. apply NoDup_cons. split; [|done].
      intros (x & Hsid & Hx)%list_elem_of_fmap. apply (Hnew x Hx).
      rewrite app_assoc, fmap_app, elem_of_app. right.
      rewrite <- Hsid. cbn. left.
    + intros x [->|Hx]%elem_of_cons; [done|].
      intros Hin. apply (Hnew x Hx).
      rewrite app_assoc, fmap_app, elem_of_app. by left.
Qed.

Section no_autoflush.

Implicit Types (s : Loader.Session) (c : Loader.counters)
  (row : Loader.frame_row) (df : list Loader.frame_row).

(** Without autoflush a query sees the committed and flushed rows only,
    so every row of a batch is judged against the same rows. *)
Lemma import_rows_unflushed (batch : list Loader.frame_row) c s :
  ∃ c' s',
    Loader.for_each batch (Loader.import_row false no_fault) c s
    = (inr c', s')
    ∧ Loader.committed s' = Loader.committed s
    ∧ Loader.flushed s' = Loader.flushed s
    ∧ Loader.pending s'
      = Loader.pending s
        ++ (Loader.new_content
              <$> filter (fun row =>
                            Loader.row_show_id row
                            ∉ show_id <$> (Loader.committed s ++ Loader.flushed s))
                    batch).
Proof.
  revert c s. induction batch as [|row batch IH]; intros c s.
  - exists c, s. cbn. by rewrite app_nil_r.
  - cbn [Loader.for_each]. unfold mbind at 1, Loader.M_bind at 1.
    unfold Loader.import_row at 1, Loader.query_first at 1.
    unfold mbind at 1, Loader.M_bind at 1.
    unfold mbind at 1, Loader.M_bind at 1.
    unfold Loader.round_trip at 1. cbn [no_fault].
    unfold mbind at 1, Loader.M_bind at 1.
    unfold mret at 1, Loader.M_ret at 1. unfold Loader.gets at 1.
    cbn [Loader.committed Loader.flushed].
    destruct (List.find _ _) as [x|] eqn:Hfind.
    + unfold mret at 1, Loader.M_ret at 1.
      edestruct IH as (c' & s' & -> & Hc & Hf & Hp).
      exists c', s'. split; [done|]. cbn in Hc, Hf, Hp.
      rewrite Hc, Hf, Hp. split; [done|]. split; [done|].
      rewrite filter_cons_False; [done|]. intros Hnot. apply Hnot.
      apply find_some in Hfind as [Hx Hsid].
      apply bool_decide_eq_true in Hsid. rewrite <- Hsid.
      by apply list_elem_of_fmap_2, list_elem_of_In.
    + unfold mbind at 1, Loader.M_bind at 1. unfold Loader.add at 1.
      unfold Loader.modify at 1. unfold mret at 1, Loader.M_ret at 1.
      edestruct IH as (c' & s' & -> & Hc & Hf & Hp).
      exists c', s'. split; [done|]. cbn in Hc, Hf, Hp.
      rewrite Hc, Hf, Hp. split; [done|]. split; [done|].
      rewrite filter_cons_True.
      * cbn [fmap list_fmap]. by rewrite <- app_assoc.
      * intros (x & Hsid & Hx)%list_elem_of_fmap.
        apply list_elem_of_In in Hx. apply (find_none _ _ Hfind) in Hx.
        by apply bool_decide_eq_false in Hx.
Qed.

Lemma range_step_cons (n : nat) :
  (0 < n)%nat →
  ∃ rest, Loader.range_step n Loader.batch_size = 0%nat :: rest.
Proof.
  intros Hn. unfold Loader.range_step, Loader.batch_size.
  destruct ((n + 100 - 1) / 100)%nat as [|m] eqn:E.
  - apply Nat.div_small_iff in E; lia.
  - cbn. eauto.
Qed.

End no_autoflush.

(** X22.  With a session that does not flush before its queries, a file
    whose release years fit the INTEGER column and whose first batch holds
    the same new id twice cannot be imported: the import raises the
    integrity error of the unique constraint and the committed table stays
    as it was. *)
Theorem duplicate_id_in_batch_fails
    (read_csv : string → Loader.exn + list Loader.csv_row)
    (to_numeric_text : string → option Z) (csv_path : string)
    (s : Loader.Session) (pre mid post : list Loader.csv_row)
    (a b : Loader.csv_row) :
  clean s →
  read_csv csv_path = inr (pre ++ a :: mid ++ b :: post) →
  years_fit to_numeric_text (pre ++ a :: mid ++ b :: post) = true →
  (length pre + length mid + 2 ≤ Loader.batch_size)%nat →
  Loader.astype_str (Loader.fillna_empty (Loader.csv_show_id a))
  = Loader.astype_str (Loader.fillna_empty (Loader.csv_show_id b)) →
  Loader.astype_str (Loader.fillna_empty (Loader.csv_show_id a))
  ∉ show_id <$> Loader.committed s →
  ∃ s',
    Loader.load_netflix_data_from_csv read_csv to_numeric_text false no_fault
      csv_path s = (inl Loader.IntegrityError, s')
    ∧ Loader.committed s' = Loader.committed s
    ∧ clean s'.
Proof.
  intros [Hf Hp] Hread Hfit%years_fit_frame_fits Hlen Hab Hnew.
  set (prep := Loader.prepare_row to_numeric_text).
  change (Loader.prepare_row to_numeric_text) with prep in Hfit.
  set (df := prep <$> (pre ++ a :: mid ++ b :: post)).
  change (prep <$> (pre ++ a :: mid ++ b :: post)) with df in Hfit.
  assert (Hbatch : ∃ tail, batch_at df 0
                 = (prep <$> pre) ++ prep a :: (prep <$> mid) ++ prep b :: tail).
  { rewrite batch_at_take. change (drop 0 df) with df. unfold df.
    rewrite fmap_app, fmap_cons, fmap_app, fmap_cons.
    exists (take (Loader.batch_size - (length pre + length mid + 2))
              (prep <$> post)).
    rewrite take_app, take_ge by (rewrite length_fmap; lia).
    f_equal. rewrite length_fmap.
    destruct (Loader.batch_size - length pre)%nat as [|n1] eqn:E1; [lia|].
    cbn [take]. f_equal.
    rewrite take_app, take_ge by (rewrite length_fmap; lia).
    f_equal. rewrite length_fmap.
    destruct (n1 - length mid)%nat as [|n2] eqn:E2; [lia|].
    cbn [take]. do 2 f_equal. lia. }
  destruct Hbatch as [tail Hbatch].
  destruct (range_step_cons (length df)) as [rest Hrange].
  { unfold df. rewrite length_fmap, length_app. simpl. lia. }
  destruct (import_rows_unflushed (batch_at df 0)
              {| Loader.records_inserted := 0; Loader.records_updated := 0;
                 Loader.records_skipped := 0 |} s)
    as (c1 & s1 & Hrows & Hc1 & Hf1 & Hp1).
  destruct (insert_rows_fails (Loader.pending s1)
              {| Loader.committed := Loader.committed s1;
                 Loader.flushed := Loader.flushed s1;
                 Loader.pending := Loader.pending s1;
                 Loader.ops := S (Loader.ops s1) |}) as [s2 Hflush].
  { rewrite Hp1, Hp. cbn [app]. apply Forall_fmap, Forall_forall.
    intros row [_ Hrow]%list_elem_of_filter.
    pose proof (frame_fits_batch_at df 0 Hfit) as Hb.
    unfold frame_fits in Hb. rewrite Forall_forall in Hb. by apply Hb. }
  { intros [Hnd _]. rewrite Hp1, Hp, Hbatch in Hnd. cbn [app] in Hnd.
    rewrite Hf, app_nil_r in Hnd.
    rewrite filter_app, filter_cons_True in Hnd by done.
    rewrite filter_app, filter_cons_True in Hnd
      by (cbn; by rewrite <- Hab).
    rewrite !fmap_app, !fmap_cons, !fmap_app, !fmap_cons in Hnd.
    apply NoDup_app in Hnd as (_ & _ & Hnd).
    apply NoDup_cons in Hnd as [Hnd _]. apply Hnd.
    rewrite elem_of_app. right. cbn. rewrite Hab. left. }
  eexists. split; [|split].
  - unfold Loader.load_netflix_data_from_csv, Loader.try_except,
      Loader.load_body.
    rewrite Hread. cbn zeta. fold prep. fold df.
    unfold Loader.import_frame, Loader.import_batches. rewrite Hrange.
    cbn [Loader.for_each]. unfold mbind at 1, Loader.M_bind at 1.
    unfold mbind at 1, Loader.M_bind at 1.
    unfold Loader.import_batch at 1. fold (batch_at df 0).
    unfold mbind at 1, Loader.M_bind at 1. rewrite Hrows.
    unfold mbind at 1, Loader.M_bind at 1. unfold Loader.commit at 1.
    unfold mbind at 1, Loader.M_bind at 1.
    unfold mbind at 1, Loader.M_bind at 1.
    unfold Loader.round_trip at 1. cbn [no_fault].
    unfold Loader.flush at 1. cbn [Loader.pending]. rewrite Hflush.
    reflexivity.
  - cbn [Loader.committed].
    pose proof (frozen_insert_rows (Loader.committed s)
                  (Loader.pending s1) _ (Hc1 : committed_is _ {|
                     Loader.committed := Loader.committed s1;
                     Loader.flushed := Loader.flushed s1;
                     Loader.pending := Loader.pending s1;
                     Loader.ops := S (Loader.ops s1) |})) as H.
    unfold spec in H. by rewrite Hflush in H.
  - done.
Qed.

Lemma duplicate_id_in_batch_fails_witness :
  ∃ s',
    Loader.load_netflix_data_from_csv
      (fun _ => inr (three_rows ++ three_rows)) no_number false no_fault
      "netflix.csv" empty_session = (inl Loader.IntegrityError, s')
    ∧ Loader.committed s' = [].
Proof.
  destruct (duplicate_id_in_batch_fails
              (fun _ => inr (three_rows ++ three_rows)) no_number
              "netflix.csv" empty_session []
              (tl three_rows) (tl three_rows)
              (csv (Loader.Text "s1") (Loader.Text "Alpha") (Loader.Int 2020)
                 (Loader.Text "Dramas, Kids"))
              (csv (Loader.Text "s1") (Loader.Text "Alpha") (Loader.Int 2020)
                 (Loader.Text "Dramas, Kids")))
    as (s' & Hrun & Hc & _).
  - by split.
  - reflexivity.
  - reflexivity.
  - cbn. unfold Loader.batch_size. lia.
  - reflexivity.
  - cbn. apply not_elem_of_nil.
  - exists s'. by split.
Defined.

(** ** The rankings and the facets agree *)

Lemma elem_of_category_tokens (db : table) (t : string) :
  t ∈ category_tokens db ↔ t ∈ Facets.get_all_categories db.
Proof.
  destruct (facet_of_token_set listed_in db
              (List.filter Sql.ne_empty (map listed_in db))) as [Hmem _].
  { intros s. apply elem_of_ne_empty_column. }
  fold (Facets.get_all_categories db) in Hmem. rewrite Hmem.
  unfold category_tokens, column_token. rewrite list_elem_of_bind. split.
  - intros (r & Ht & Hr). unfold row_tokens in Ht.
    destruct (listed_in r) as [s|] eqn:Es; [|by apply elem_of_nil in Ht].
    destruct (Str.truthy s) eqn:E; [|by apply elem_of_nil in Ht].
    exists r, s. by apply truthy_ne in E.
  - intros (r & s & Hr & Hs & Hne%truthy_ne & Ht). exists r.
    split; [|done]. unfold row_tokens. by rewrite Hs, Hne.
Qed.

(** X23.  The statistics and the facets are about the same values: the
    ratings of [by_rating] are those of the ratings facet, every category
    of [by_category] is in the category facet, and when the table holds at
    most 20 distinct categories every category of the facet is in
    [by_category]. *)
Theorem rankings_agree_with_facets (db : table) :
  (∀ k, k ∈ (Stats.by_rating (Stats.get_statistics db)).*1
        ↔ k ∈ Facets.get_all_ratings db)
  ∧ (∀ k, k ∈ (Stats.by_category (Stats.get_statistics db)).*1 →
          k ∈ Facets.get_all_categories db)
  ∧ ((length (Facets.get_all_categories db) ≤ 20)%nat →
     ∀ k, k ∈ Facets.get_all_categories db →
          k ∈ (Stats.by_category (Stats.get_statistics db)).*1).
Proof.
  split; [|split].
  - intros k. rewrite (proj1 (get_all_ratings_spec db) k), <- elem_of_rated.
    change (Stats.by_rating (Stats.get_statistics db))
      with (Stats.sorted_desc (foldl Stats.incr [] (rated db))).
    rewrite sorted_desc_Permutation.
    rewrite (counted_keys _ _ _ (counted_foldl_incr (rated db) []) k).
    rewrite elem_of_nil. tauto.
  - intros k ([k' n] & -> & Hin)%list_elem_of_fmap.
    apply elem_of_category_tokens.
    unfold Stats.get_statistics in Hin. cbn [Stats.by_category] in Hin.
    rewrite foldl_count_row, genres_query_tokens in Hin.
    apply subseteq_take in Hin. rewrite sorted_desc_Permutation in Hin.
    by apply counts_entries in Hin as [? _].
  - intros Hle k Hk%elem_of_category_tokens.
    unfold Stats.get_statistics. cbn [Stats.by_category].
    rewrite foldl_count_row, genres_query_tokens.
    set (toks := category_tokens db) in *.
    pose proof (counted_foldl_incr toks []) as Hc.
    assert (Hperm : (foldl Stats.incr [] toks).*1
                    ≡ₚ Facets.get_all_categories db).
    { apply NoDup_Permutation.
      - apply (counted_NoDup _ _ _ Hc). constructor.
      - apply sorted_NoDup, NoDup_elements.
      - intros t. rewrite (counted_keys _ _ _ Hc), elem_of_nil.
        rewrite <- elem_of_category_tokens. fold toks. tauto. }
    rewrite take_ge.
    + rewrite sorted_desc_Permutation, Hperm.
      by apply elem_of_category_tokens.
    + by rewrite sorted_desc_Permutation, <- (length_fmap fst), Hperm.
Qed.

Lemma rankings_agree_with_facets_witness :
  "Kids"
  ∈ (Stats.by_category
       (Stats.get_statistics
          [mk "s1" None None None None None (Some "Dramas, Kids")])).*1.
Proof.
  apply (rankings_agree_with_facets
           [mk "s1" None None None None None (Some "Dramas, Kids")]).
  - vm_compute. lia.
  - vm_compute. right. left.
Defined.

(** ** The range of the release year *)

Section year_range_facts.

Variable read_csv : string → Loader.exn + list Loader.csv_row.
Variable to_numeric_text : string → option Z.
Variable autoflush : bool.
Variable fault : nat → bool.

Implicit Types (s : Loader.Session) (c : Loader.counters)
  (row : Loader.frame_row).











End year_range_facts.



(** A release year beyond INTEGER: the INSERT is refused, the import raises
    the data error and nothing of the batch is committed. *)
Example import_refuses_far_year :
  (Loader.load_netflix_data_from_csv (fun _ => inr far_year_rows)
     no_number true no_fault "netflix.csv" empty_session).1
  = inl Loader.DataError
  ∧ Loader.committed
      (Loader.load_netflix_data_from_csv (fun _ => inr far_year_rows)
         no_number true no_fault "netflix.csv" empty_session).2
    = [].
Proof. by vm_compute. Qed.
